(** * EasyRider bus company: the dataset checks of [easyrider.py]

    A shallow embedding of the five checks of [easyrider.py] (field
    validation, line topology, transfer stops, arrival times, on-demand
    stops), followed by the properties established about them.

    Conventions of the embedding.
    - A Python [str] is a Rocq [string]; its characters are the code points
      below 256.  Python compares strings by code point, which is
      [String.leb] on this representation.
    - A Python [dict] that the code iterates over is an insertion-ordered
      association list ([dict] below); a dict that is only looked up is a
      [gmap]; a Python [set] is a [gset].
    - [print] appends a [message] to the text written so far; [exit(1)]
      ends the computation with [Exit]. *)

From stdpp Require Import gmap strings list sorting.
From Stdlib Require Import Ascii ZArith.

Open Scope string_scope.
Open Scope list_scope.

Set Warnings "-clear-no-such-hyp".

(** ** Insertion-ordered dictionaries *)

Section dict.
Context {K V : Type} `{EqDecision K}.

(** [d[k]], [None] standing for [KeyError]. *)
Fixpoint get (k : K) (d : list (K * V)) : option V :=
  match d with
  | [] => None
  | (k', v) :: d' => if decide (k' = k) then Some v else get k d'
  end.

(** [d.setdefault(k, v)]: a new key goes to the end of the dict. *)
Definition setdefault (k : K) (v : V) (d : list (K * V)) : list (K * V) :=
  match get k d with
  | Some _ => d
  | None => d ++ [(k, v)]
  end.

(** [d[k] = f(d[k])] for a key that is present: the position is kept. *)
Fixpoint alter_at (f : V → V) (k : K) (d : list (K * V)) : list (K * V) :=
  match d with
  | [] => []
  | (k', v) :: d' =>
      if decide (k' = k) then (k', f v) :: d' else (k', v) :: alter_at f k d'
  end.

Definition keys (d : list (K * V)) : list K := d.*1.
Definition values (d : list (K * V)) : list V := d.*2.
End dict.

Abbreviation dict K V := (list (K * V)) (only parsing).

(** ** Regular expressions

    The three patterns of [check_db_fields] use character classes,
    concatenation, alternation, [?] and [+], and are anchored by [^] and
    [$].  [re.match] finds a match if and only if one exists, so matching is
    decided here with derivatives. *)

Module Re.

Inductive regex :=
| Void
| Eps
| Class (p : ascii → bool)
| Seq (r1 r2 : regex)
| Alt (r1 r2 : regex)
| Star (r : regex).

Definition Plus (r : regex) : regex := Seq r (Star r).
Definition Opt (r : regex) : regex := Alt r Eps.

Fixpoint Lit (s : string) : regex :=
  match s with
  | EmptyString => Eps
  | String c s' => Seq (Class (Ascii.eqb c)) (Lit s')
  end.

Fixpoint nullable (r : regex) : bool :=
  match r with
  | Void => false
  | Eps => true
  | Class _ => false
  | Seq r1 r2 => nullable r1 && nullable r2
  | Alt r1 r2 => nullable r1 || nullable r2
  | Star _ => true
  end.

Fixpoint deriv (c : ascii) (r : regex) : regex :=
  match r with
  | Void => Void
  | Eps => Void
  | Class p => if p c then Eps else Void
  | Seq r1 r2 =>
      if nullable r1
      then Alt (Seq (deriv c r1) r2) (deriv c r2)
      else Seq (deriv c r1) r2
  | Alt r1 r2 => Alt (deriv c r1) (deriv c r2)
  | Star r1 => Seq (deriv c r1) (Star r1)
  end.

(** The whole of [s] is in the language of [r]. *)
Fixpoint fullmatch (r : regex) (s : string) : bool :=
  match s with
  | EmptyString => nullable r
  | String c s' => fullmatch (deriv c r) s'
  end.

(** [s] without its last character, when that is a newline. *)
Fixpoint chomp (s : string) : option string :=
  match s with
  | EmptyString => None
  | String c EmptyString => if Ascii.eqb c "010" then Some EmptyString else None
  | String c s' => String c <$> chomp s'
  end.

(** [bool(re.match(p, s))] for a pattern [^r$]: without [re.MULTILINE],
    [$] matches at the end of the string and also just before a newline
    that ends the string. *)
Definition match_anchored (r : regex) (s : string) : bool :=
  fullmatch r s ||
  match chomp s with
  | Some s' => fullmatch r s'
  | None => false
  end.

Definition in_range (lo hi : ascii) (c : ascii) : bool :=
  (N_of_ascii lo <=? N_of_ascii c)%N && (N_of_ascii c <=? N_of_ascii hi)%N.

(** [\d]: the decimal digits below code point 256. *)
Definition digit : ascii → bool := in_range "0" "9".

(** [\s]: the white space of Python's [str] patterns below code point
    256: TAB to CR, FS to US, the space, NEL and the no-break space. *)
Definition space (c : ascii) : bool :=
  let n := N_of_ascii c in
  ((9 <=? n) && (n <=? 13) || (28 <=? n) && (n <=? 32) ||
   (n =? 133) || (n =? 160))%N.

(** [.]: any character but the newline. *)
Definition dot (c : ascii) : bool := negb (Ascii.eqb c "010").

Definition one_of (s : string) (c : ascii) : bool :=
  existsb (Ascii.eqb c) (String.list_ascii_of_string s).

End Re.

(** ** Records as [json.load] returns them *)

(** A JSON value.  [VOther] stands for a float, a list or an object: no
    check looks inside one. *)
Inductive value :=
| VInt (n : Z)
| VBool (b : bool)
| VStr (s : string)
| VNull
| VOther.

(** [isinstance(x, int)]: [bool] is a subclass of [int]. *)
Definition is_int (x : value) : bool :=
  match x with
  | VInt _ | VBool _ => true
  | _ => false
  end.

(** [isinstance(x, str) and bool(re.match(template, x))]. *)
Definition is_str_matching (template : Re.regex) (x : value) : bool :=
  match x with
  | VStr s => Re.match_anchored template s
  | _ => false
  end.

(** One record of the dataset, as the items of its dict. *)
Definition entry := list (string * value).

(** What the program prints, one constructor per [print] call. *)
Inductive message :=
| SpecificationErrors (key : string) (value : nat)
    (* Specification errors in key {key}: {value} *)
| NoStartOrEndStop (bus_line_number : Z)
    (* There is no start or end stop for the line: {bus_line_number}. *)
| ArrivalTimeTest
    (* Arrival time test: *)
| WrongTime (line : Z) (station : string)
    (* bus_id line {line}: wrong time on station {station} *)
| OnDemandStopsTest
    (* On demand stops test: *)
| WrongStopType (names : list string)
    (* Wrong stop type: {names} *)
| OK.
    (* OK *)

(** ** [check_db_fields] *)

(** [^([0-1]\d|2[0-3]):([0-5]\d|60)$] *)
Definition a_time_template : Re.regex :=
  Re.Seq
    (Re.Alt (Re.Seq (Re.Class (Re.in_range "0" "1")) (Re.Class Re.digit))
            (Re.Seq (Re.Lit "2") (Re.Class (Re.in_range "0" "3"))))
    (Re.Seq (Re.Lit ":")
       (Re.Alt (Re.Seq (Re.Class (Re.in_range "0" "5")) (Re.Class Re.digit))
               (Re.Lit "60"))).

(** [^[SOF]?$] *)
Definition stop_type_template : Re.regex :=
  Re.Opt (Re.Class (Re.one_of "SOF")).

(** [^[A-Z].+\s(Road|Avenue|Boulevard|Street)$] *)
Definition stop_name_template : Re.regex :=
  Re.Seq (Re.Class (Re.in_range "A" "Z"))
    (Re.Seq (Re.Plus (Re.Class Re.dot))
       (Re.Seq (Re.Class Re.space)
          (Re.Alt (Re.Lit "Road")
             (Re.Alt (Re.Lit "Avenue")
                (Re.Alt (Re.Lit "Boulevard") (Re.Lit "Street")))))).

(** The dict of the six field predicates; [None] for a key that is not in
    it. *)
Definition db_fields_specification (key : string) : option (value → bool) :=
  if String.eqb key "bus_id" then Some is_int
  else if String.eqb key "stop_id" then Some is_int
  else if String.eqb key "stop_name" then Some (is_str_matching stop_name_template)
  else if String.eqb key "next_stop" then Some is_int
  else if String.eqb key "stop_type" then Some (is_str_matching stop_type_template)
  else if String.eqb key "a_time" then Some (is_str_matching a_time_template)
  else None.

(** The body of the inner loop, for one item of one entry. *)
Definition check_item (errors : dict string nat) (item : string * value)
  : dict string nat :=
  let '(key, value) := item in
  match db_fields_specification key with
  | Some valid =>
      let errors := setdefault key 0 errors in
      if negb (valid value) then alter_at S key errors else errors
  | None => errors
  end.

Definition check_entry (errors : dict string nat) (e : entry) : dict string nat :=
  foldl check_item errors e.

(** The [errors] dict after the two nested loops. *)
Definition count_errors (db : list entry) : dict string nat :=
  foldl check_entry [] db.

(** The second loop: one line for each key with a count above zero. *)
Definition report_errors (errors : dict string nat) : list message :=
  omap (λ '(key, value),
         if (0 <? value)%nat then Some (SpecificationErrors key value) else None)
       errors.

(** [bool(errors)]: a dict is true when it is not empty. *)
Definition truthy {A} (l : list A) : bool :=
  match l with
  | [] => false
  | _ => true
  end.

(** What [check_db_fields] prints and what it returns. *)
Definition check_db_fields (db : list entry) : list message * bool :=
  let errors := count_errors db in
  (report_errors errors, negb (truthy errors)).

(** ** Typed records

    The other four checks read [bus_id], [stop_name], [stop_type] and
    [a_time] of every entry, use [bus_id] as a dict key and compare
    [stop_type] and [a_time] with strings.  They are embedded on records
    whose fields have the types the loader promises: integers for the three
    identifiers, strings (of any content) for the rest. *)

Record StopRecord := {
  bus_id : Z;
  stop_id : Z;
  stop_name : string;
  next_stop : Z;
  stop_type : string;
  a_time : string
}.

(** The same record as the entry [json.load] builds. *)
Definition to_entry (r : StopRecord) : entry :=
  [ ("bus_id", VInt (bus_id r)); ("stop_id", VInt (stop_id r));
    ("stop_name", VStr (stop_name r)); ("next_stop", VInt (next_stop r));
    ("stop_type", VStr (stop_type r)); ("a_time", VStr (a_time r)) ].

(** ** [bus_lines_and_stops] *)

(** The value stored for one bus line. *)
Record LineTopology := {
  start_count : nat;
  final_count : nat;
  start_stop_names : gset string;
  final_stop_names : gset string;
  other_stop_names : gset string
}.

Definition new_line : LineTopology :=
  {| start_count := 0; final_count := 0; start_stop_names := ∅;
     final_stop_names := ∅; other_stop_names := ∅ |}.

(** The branch on [stop_type], applied to the entry's line. *)
Definition add_stop (e : StopRecord) (p : LineTopology) : LineTopology :=
  if String.eqb (stop_type e) "S" then
    {| start_count := S (start_count p);
       final_count := final_count p;
       start_stop_names := start_stop_names p ∪ {[stop_name e]};
       final_stop_names := final_stop_names p;
       other_stop_names := other_stop_names p |}
  else if String.eqb (stop_type e) "F" then
    {| start_count := start_count p;
       final_count := S (final_count p);
       start_stop_names := start_stop_names p;
       final_stop_names := final_stop_names p ∪ {[stop_name e]};
       other_stop_names := other_stop_names p |}
  else
    {| start_count := start_count p;
       final_count := final_count p;
       start_stop_names := start_stop_names p;
       final_stop_names := final_stop_names p;
       other_stop_names := other_stop_names p ∪ {[stop_name e]} |}.

(** The loop body up to the test of the [break]: the line is created when
    it is new, then the entry is classified. *)
Definition classify (bus_lines : dict Z LineTopology) (e : StopRecord)
  : dict Z LineTopology :=
  alter_at (add_stop e) (bus_id e) (setdefault (bus_id e) new_line bus_lines).

(** The test of the [break], on the line of the entry just classified. *)
Definition over_limit (bus_lines : dict Z LineTopology) (e : StopRecord) : bool :=
  match get (bus_id e) bus_lines with
  | Some p => (1 <? start_count p)%nat || (1 <? final_count p)%nat
  | None => false
  end.

(** The first loop, with its [break]. *)
Fixpoint scan (bus_lines : dict Z LineTopology) (db : list StopRecord)
  : dict Z LineTopology :=
  match db with
  | [] => bus_lines
  | e :: db' =>
      let bus_lines := classify bus_lines e in
      if over_limit bus_lines e then bus_lines else scan bus_lines db'
  end.

(** How a function that may call [exit] ends. *)
Inductive outcome (A : Type) :=
| Return (a : A)
| Exit (printed : list message) (status : Z).
Arguments Return {A} a.
Arguments Exit {A} printed status.

Definition bind {A B} (x : outcome A) (f : A → outcome B) : outcome B :=
  match x with
  | Return a => f a
  | Exit printed status => Exit printed status
  end.

(** The condition of the [assert]. *)
Definition one_start_one_final (p : LineTopology) : bool :=
  (start_count p =? 1)%nat && (final_count p =? 1)%nat.

(** The second loop: the first line, in the order of the dict, that fails
    the assertion. *)
Definition first_violation (bus_lines : dict Z LineTopology)
  : option (Z * LineTopology) :=
  List.find (λ kv, negb (one_start_one_final kv.2)) bus_lines.

Definition bus_lines_and_stops (db : list StopRecord)
  : outcome (dict Z LineTopology) :=
  let bus_lines := scan [] db in
  match first_violation bus_lines with
  | Some (bus_line_number, _) => Exit [NoStartOrEndStop bus_line_number] 1
  | None => Return bus_lines
  end.

(** ** [check_start_final_transfer_stops] *)

(** The set appended to [all_stops] for one line. *)
Definition line_stops (p : LineTopology) : gset string :=
  start_stop_names p ∪ final_stop_names p ∪ other_stop_names p.

(** [itertools.combinations(l, 2)]: the pairs of elements at positions
    [i < j], in lexicographic order of the positions. *)
Fixpoint combinations2 {A} (l : list A) : list (A * A) :=
  match l with
  | [] => []
  | x :: l' => (pair x <$> l') ++ combinations2 l'
  end.

(** The first loop, over the values of the dict. *)
Definition collect_stops (bus_lines : list LineTopology)
  : gset string * gset string * list (gset string) :=
  foldl (λ '(start_stops, finish_stops, all_stops) bus_line,
           (start_stops ∪ start_stop_names bus_line,
            finish_stops ∪ final_stop_names bus_line,
            all_stops ++ [line_stops bus_line]))
        (∅, ∅, []) bus_lines.

(** The second loop, over the pairs of lines. *)
Definition collect_transfers (pairs : list (gset string * gset string))
  : gset string :=
  foldl (λ transfer_stops '(u, v), transfer_stops ∪ (u ∩ v)) ∅ pairs.

Definition check_start_final_transfer_stops (db : list StopRecord)
  : outcome (gset string * gset string * gset string) :=
  bind (bus_lines_and_stops db) (λ bus_lines,
    let '(start_stops, finish_stops, all_stops) :=
      collect_stops (values bus_lines) in
    let transfer_stops := collect_transfers (combinations2 all_stops) in
    Return (start_stops, transfer_stops, finish_stops)).

(** ** [check_atime] *)

Record atime_state := {
  bus_last_stop_arrival_time : gmap Z string;
  bus_line_blacklist : gset Z;
  atime_printed : list message
}.

(** The state when the loop starts: the header is printed. *)
Definition atime_init : atime_state :=
  {| bus_last_stop_arrival_time := ∅;
     bus_line_blacklist := ∅;
     atime_printed := [ArrivalTimeTest] |}.

(** [bus_last_stop_arrival_time[entry['bus_id']] = entry['a_time']] *)
Definition set_time (st : atime_state) (e : StopRecord) : atime_state :=
  {| bus_last_stop_arrival_time :=
       <[bus_id e := a_time e]> (bus_last_stop_arrival_time st);
     bus_line_blacklist := bus_line_blacklist st;
     atime_printed := atime_printed st |}.

(** The line goes to the blacklist and the diagnostic is printed. *)
Definition blacklist_line (st : atime_state) (e : StopRecord) : atime_state :=
  {| bus_last_stop_arrival_time := bus_last_stop_arrival_time st;
     bus_line_blacklist := bus_line_blacklist st ∪ {[bus_id e]};
     atime_printed := atime_printed st ++ [WrongTime (bus_id e) (stop_name e)] |}.

(** The loop body. *)
Definition atime_step (st : atime_state) (e : StopRecord) : atime_state :=
  if decide (bus_id e ∈ bus_line_blacklist st) then st
  else
    match bus_last_stop_arrival_time st !! bus_id e with
    | None => set_time st e
    | Some last =>
        if String.leb last (a_time e) then set_time st e
        else blacklist_line st e
    end.

Definition atime_loop (db : list StopRecord) : atime_state :=
  foldl atime_step atime_init db.

(** Everything [check_atime] prints. *)
Definition check_atime (db : list StopRecord) : list message :=
  let st := atime_loop db in
  atime_printed st ++
  (if decide (bus_line_blacklist st = ∅) then [OK] else []).

(** ** [check_on_demand] *)

Definition on_demand_step (start_stops transfer_stops finish_stops : gset string)
    (incorrect_on_demand : gset string) (e : StopRecord) : gset string :=
  if String.eqb (stop_type e) "O" &&
     bool_decide (stop_name e ∈ start_stops ∪ transfer_stops ∪ finish_stops)
  then incorrect_on_demand ∪ {[stop_name e]}
  else incorrect_on_demand.

Definition incorrect_on_demand (db : list StopRecord)
    (start_stops transfer_stops finish_stops : gset string) : gset string :=
  foldl (on_demand_step start_stops transfer_stops finish_stops) ∅ db.

(** The order of Python's [str]: code point by code point. *)
Definition str_le (s1 s2 : string) : Prop := String.leb s1 s2 = true.

#[global] Instance str_le_dec s1 s2 : Decision (str_le s1 s2).
Proof. unfold str_le. apply _. Defined.

(** [sorted(s)] for a set of strings. *)
Definition sorted (s : gset string) : list string :=
  merge_sort str_le (elements s).

(** Everything [check_on_demand] prints. *)
Definition check_on_demand (db : list StopRecord)
    (start_stops transfer_stops finish_stops : gset string) : list message :=
  let incorrect := incorrect_on_demand db start_stops transfer_stops finish_stops in
  OnDemandStopsTest ::
  (if decide (incorrect = ∅) then [OK] else [WrongStopType (sorted incorrect)]).

(** ** The script: the four calls of [__main__], in order.  The topology is
    computed twice, as in the source; an [exit] in the first computation
    ends the run after the field report. *)
Definition main (db : list StopRecord) : outcome (list message) :=
  let fields := (check_db_fields (to_entry <$> db)).1 in
  match check_start_final_transfer_stops db with
  | Exit printed status => Exit (fields ++ printed) status
  | Return _ =>
      let times := check_atime db in
      match check_start_final_transfer_stops db with
      | Exit printed status => Exit (fields ++ times ++ printed) status
      | Return (start_stops, transfer_stops, finish_stops) =>
          Return (fields ++ times ++
                  check_on_demand db start_stops transfer_stops finish_stops)
      end
  end.

(** ** Vocabulary of the statements *)

(** The count stored for [key], zero when the key is absent. *)
Definition count (key : string) (errors : dict string nat) : nat :=
  default 0 (get key errors).

(** The predicate of a field; keys outside the specification are not
    checked. *)
Definition field_ok (key : string) (x : value) : bool :=
  match db_fields_specification key with
  | Some valid => valid x
  | None => true
  end.

(** The item is the field [key] and fails its predicate. *)
Definition item_fails (key : string) (item : string * value) : bool :=
  bool_decide (item.1 = key) && negb (field_ok key item.2).

(** The number of failures of the field [key] in one entry and in a
    dataset. *)
Definition entry_failures (key : string) (e : entry) : nat :=
  length (List.filter (item_fails key) e).

Definition failures (key : string) (db : list entry) : nat :=
  sum_list (entry_failures key <$> db).

(** A record that satisfies the six predicates. *)
Definition valid_record : StopRecord :=
  {| bus_id := 128; stop_id := 1; stop_name := "Prospekt Avenue";
     next_stop := 3; stop_type := "S"; a_time := "08:12" |}.

(** The records of the line [l], in the order of the dataset. *)
Definition line (l : Z) (db : list StopRecord) : list StopRecord :=
  filter (λ e, bus_id e = l) db.

(** The lines of the dataset. *)
Definition bus_ids (db : list StopRecord) : list Z := bus_id <$> db.

(** The number of records of the line [l] with [stop_type] "S", and with
    [stop_type] "F". *)
Definition starts (l : Z) (db : list StopRecord) : nat :=
  length (filter (λ e, stop_type e = "S") (line l db)).

Definition finals (l : Z) (db : list StopRecord) : nat :=
  length (filter (λ e, stop_type e = "F") (line l db)).

(** The topology of a line after its records [rs] are classified one by
    one, starting from [p]. *)
Definition add_stops (p : LineTopology) (rs : list StopRecord) : LineTopology :=
  foldl (λ p e, add_stop e p) p rs.

(** A start count or a final count above 1. *)
Definition exceeds (p : LineTopology) : bool :=
  (1 <? start_count p)%nat || (1 <? final_count p)%nat.

(** Some line of the dict has a start count or a final count above 1. *)
Definition exceeded (bus_lines : dict Z LineTopology) : bool :=
  existsb (λ kv, exceeds kv.2) bus_lines.

(** The first loop leaves through its [break]. *)
Fixpoint broke (bus_lines : dict Z LineTopology) (db : list StopRecord) : bool :=
  match db with
  | [] => false
  | e :: db' =>
      let bus_lines := classify bus_lines e in
      if over_limit bus_lines e then true else broke bus_lines db'
  end.

(** A record with the fields the last four checks read. *)
Definition stop (bus : Z) (name type time : string) : StopRecord :=
  {| bus_id := bus; stop_id := 0; stop_name := name; next_stop := 0;
     stop_type := type; a_time := time |}.

(** Two lines that share the stop "Central": it is an ordinary stop of
    line 1 and the start of line 2. *)
Definition central_db : list StopRecord :=
  [ stop 1 "X" "S" "08:00"; stop 1 "Central" "" "08:10"; stop 1 "Y" "F" "08:20";
    stop 2 "Central" "S" "09:00"; stop 2 "Z" "F" "09:10" ].

(** Two lines that share the on-demand stop "Central". *)
Definition on_demand_db : list StopRecord :=
  [ stop 1 "A" "S" "08:00"; stop 1 "Central" "O" "08:10"; stop 1 "B" "F" "08:20";
    stop 2 "C" "S" "09:00"; stop 2 "Central" "O" "09:10"; stop 2 "D" "F" "09:20" ].

(** A diagnostic of [check_atime] about the line [l]. *)
Definition about (l : Z) (m : message) : Prop :=
  match m with
  | WrongTime l' _ => l' = l
  | _ => False
  end.

#[global] Instance about_dec l m : Decision (about l m).
Proof. destruct m; simpl; apply _. Defined.

(** What [check_atime] holds about the line [l]: its tracked time, whether
    it is blacklisted, and its diagnostics. *)
Definition line_view (l : Z) (st : atime_state)
  : option string * bool * list message :=
  (bus_last_stop_arrival_time st !! l,
   bool_decide (l ∈ bus_line_blacklist st),
   filter (about l) (atime_printed st)).

(** The chronology example: line 1 goes back in time at its third record,
    line 2 runs alongside in order. *)
Definition chronology_db : list StopRecord :=
  [ stop 1 "A" "S" "08:00"; stop 2 "P" "S" "08:01";
    stop 1 "B" "" "08:10";  stop 2 "Q" "" "08:11";
    stop 1 "C" "" "08:05";  stop 2 "R" "" "08:21";
    stop 1 "D" "F" "09:00"; stop 2 "S" "F" "09:01" ].

(** The diagnostics of a line: one if it is blacklisted, none otherwise;
    and [OK] is not printed inside the loop. *)
Definition diagnostics_ok (st : atime_state) : Prop :=
  (∀ l, length (filter (about l) (atime_printed st)) =
        if bool_decide (l ∈ bus_line_blacklist st) then 1 else 0) ∧
  OK ∉ atime_printed st.

(** ** Vocabulary of the further properties *)

(** The language of a regular expression: the strings it matches as a
    whole. *)
Inductive lang : Re.regex → string → Prop :=
| lang_eps : lang Re.Eps ""
| lang_class p c : p c = true → lang (Re.Class p) (String c "")
| lang_seq r1 r2 s1 s2 :
    lang r1 s1 → lang r2 s2 → lang (Re.Seq r1 r2) (s1 +:+ s2)
| lang_alt_l r1 r2 s : lang r1 s → lang (Re.Alt r1 r2) s
| lang_alt_r r1 r2 s : lang r2 s → lang (Re.Alt r1 r2) s
| lang_star_nil r : lang (Re.Star r) ""
| lang_star_cons r s1 s2 :
    lang r s1 → lang (Re.Star r) s2 → lang (Re.Star r) (s1 +:+ s2).

(** The value of a decimal digit. *)
Definition digit_value (c : ascii) : N := (N_of_ascii c - 48)%N.

(** The string of one newline. *)
Definition newline : string := String "010" "".

(** The keys of [db_fields_specification]. *)
Definition known_keys : list string :=
  ["bus_id"; "stop_id"; "stop_name"; "next_stop"; "stop_type"; "a_time"].

(** The entry without the items whose key is not in the specification. *)
Definition known_items (e : entry) : entry :=
  List.filter (λ item, bool_decide (item.1 ∈ known_keys)) e.

(** The entry with the value [x] for the key [key], when it has the key. *)
Definition set_field (key : string) (x : value) (e : entry) : entry :=
  (λ item, if decide (item.1 = key) then (key, x) else item) <$> e.

(** The list without the later occurrences of its elements. *)
Fixpoint first_occurrences (l : list Z) : list Z :=
  match l with
  | [] => []
  | x :: l' => x :: filter (λ y, y ≠ x) (first_occurrences l')
  end.

(** The names of the records. *)
Definition names (rs : list StopRecord) : gset string :=
  list_to_set (stop_name <$> rs).

(** The first of the records [rs] whose time is before the time of the
    record before it, [t] being the time before the first record. *)
Fixpoint first_descent (t : string) (rs : list StopRecord) : option StopRecord :=
  match rs with
  | [] => None
  | e :: rs' =>
      if String.leb t (a_time e) then first_descent (a_time e) rs' else Some e
  end.

(** The same for a whole line: its first record has no record before it. *)
Definition first_offender (rs : list StopRecord) : option StopRecord :=
  match rs with
  | [] => None
  | e :: rs' => first_descent (a_time e) rs'
  end.


(** The records that the first loop of [bus_lines_and_stops] classifies,
    told from the records alone: the dataset up to and including the first
    record with which its line has a second "S" record or a second "F"
    record, and the whole dataset when there is no such record.  [seen]
    holds the records before [db]. *)
Fixpoint scanned_from (seen db : list StopRecord) : list StopRecord :=
  match db with
  | [] => []
  | e :: db' =>
      if (1 <? starts (bus_id e) (seen ++ [e]))%nat ||
         (1 <? finals (bus_id e) (seen ++ [e]))%nat
      then [e]
      else e :: scanned_from (seen ++ [e]) db'
  end.

Definition scanned (db : list StopRecord) : list StopRecord :=
  scanned_from [] db.

(** The line [l] has exactly one "S" record and one "F" record among the
    records [rs]. *)
Definition one_S_one_F (rs : list StopRecord) (l : Z) : bool :=
  (starts l rs =? 1)%nat && (finals l rs =? 1)%nat.

(** The first line, in the order in which the records [rs] first mention
    the lines, that does not have exactly one "S" record and one "F"
    record among [rs]. *)
Definition first_ill_formed (rs : list StopRecord) : option Z :=
  List.find (λ l, negb (one_S_one_F rs l)) (first_occurrences (bus_ids rs)).

(** * Properties *)

(** ** Dictionaries *)

Section dict_facts.
Context {K V : Type} `{EqDecision K}.
Implicit Types (d : list (K * V)) (k : K) (v : V).

Lemma get_app k d1 d2 :
  get k (d1 ++ d2) = match get k d1 with Some v => Some v | None => get k d2 end.
Proof.
  induction d1 as [|[k' v'] d1 IH]; simpl; [done|].
  by destruct (decide (k' = k)).
Qed.

Lemma get_None k d : get k d = None ↔ k ∉ keys d.
Proof.
  unfold keys. induction d as [|[k' v'] d IH]; simpl.
  - split; [intros _; apply not_elem_of_nil | done].
  - rewrite not_elem_of_cons. destruct (decide (k' = k)) as [->|Hne].
    + split; [done | by intros [? _]].
    + rewrite IH. split; [by split | by intros [_ ?]].
Qed.

Lemma get_Some_elem_of k v d : get k d = Some v → (k, v) ∈ d.
Proof.
  induction d as [|[k' v'] d IH]; simpl; [done|].
  destruct (decide (k' = k)) as [->|]; intros Hg.
  - injection Hg as ->. apply elem_of_cons; by left.
  - apply elem_of_cons; right; auto.
Qed.

Lemma elem_of_get k v d : NoDup (keys d) → (k, v) ∈ d → get k d = Some v.
Proof.
  unfold keys. induction d as [|[k' v'] d IH]; simpl.
  - intros _ Hin. by apply elem_of_nil in Hin.
  - rewrite NoDup_cons. intros [Hk Hnd] [Heq|Hin]%elem_of_cons.
    + injection Heq as -> ->. by rewrite decide_True.
    + rewrite decide_False; [auto|]. intros ->. apply Hk.
      apply list_elem_of_fmap. by exists (k, v).
Qed.

Lemma get_setdefault k k' v d :
  get k' (setdefault k v d) =
  match get k' d with
  | Some x => Some x
  | None => if decide (k = k') then Some v else None
  end.
Proof.
  unfold setdefault. destruct (get k d) as [x|] eqn:Hk.
  - destruct (get k' d) eqn:Hk'; [done|].
    destruct (decide (k = k')) as [->|]; congruence.
  - rewrite get_app. simpl. by destruct (get k' d).
Qed.

Lemma get_alter_at f k k' d :
  get k' (alter_at f k d) = if decide (k = k') then f <$> get k' d else get k' d.
Proof.
  induction d as [|[k0 v0] d IH]; simpl.
  - by destruct (decide (k = k')).
  - destruct (decide (k0 = k)) as [->|Hne]; simpl.
    + destruct (decide (k = k')); by simplify_eq.
    + rewrite IH. destruct (decide (k0 = k')) as [->|]; [|done].
      by rewrite decide_False.
Qed.

Lemma keys_alter_at f k d : keys (alter_at f k d) = keys d.
Proof.
  unfold keys. induction d as [|[k0 v0] d IH]; simpl; [done|].
  destruct (decide (k0 = k)); csimpl; [done|]. by f_equal.
Qed.

Lemma keys_setdefault k v d :
  keys (setdefault k v d) =
  if decide (k ∈ keys d) then keys d else keys d ++ [k].
Proof.
  unfold setdefault. destruct (get k d) eqn:Hg.
  - rewrite decide_True; [done|].
    destruct (decide (k ∈ keys d)) as [|Hn]; [done|].
    apply get_None in Hn. congruence.
  - rewrite decide_False; [|by apply get_None].
    unfold keys. by rewrite fmap_app.
Qed.

Lemma NoDup_keys_setdefault k v d :
  NoDup (keys d) → NoDup (keys (setdefault k v d)).
Proof.
  intros Hnd. rewrite keys_setdefault. case_decide; [done|].
  apply NoDup_app. split_and!; [done| |apply NoDup_singleton].
  intros x Hx ->%list_elem_of_singleton. done.
Qed.

Lemma truthy_false {A} (l : list A) : truthy l = false ↔ l = [].
Proof. by destruct l. Qed.
End dict_facts.

(** ** [check_db_fields] *)

Lemma count_check_item key errors item :
  count key (check_item errors item) =
  count key errors + (if item_fails key item then 1 else 0).
Proof.
  destruct item as [k v]. unfold check_item, item_fails, field_ok, count. simpl.
  destruct (decide (k = key)) as [->|Hne].
  - rewrite bool_decide_eq_true_2 by done. simpl.
    destruct (db_fields_specification key) as [valid|]; [|simpl; lia].
    destruct (valid v); simpl.
    + rewrite get_setdefault. destruct (get key errors); simpl; [lia|].
      rewrite decide_True by done. simpl. lia.
    + rewrite get_alter_at, decide_True, get_setdefault by done.
      destruct (get key errors); simpl; [lia|].
      rewrite decide_True by done. simpl. lia.
  - rewrite bool_decide_eq_false_2 by done. simpl. rewrite Nat.add_0_r.
    destruct (db_fields_specification k) as [valid|]; [|done].
    assert (get key (setdefault k 0 errors) = get key errors) as Hsd.
    { rewrite get_setdefault. destruct (get key errors); [done|].
      by rewrite decide_False. }
    destruct (valid v); simpl; [by rewrite Hsd|].
    by rewrite get_alter_at, decide_False, Hsd.
Qed.

Lemma count_check_entry key e errors :
  count key (check_entry errors e) = count key errors + entry_failures key e.
Proof.
  unfold check_entry, entry_failures. revert errors.
  induction e as [|item e IH]; intros errors; simpl; [lia|].
  rewrite IH, count_check_item. destruct (item_fails key item); simpl; lia.
Qed.

Lemma count_foldl_check_entry key db errors :
  count key (foldl check_entry errors db) = count key errors + failures key db.
Proof.
  unfold failures. revert errors.
  induction db as [|e db IH]; intros errors; csimpl; [lia|].
  rewrite IH, count_check_entry. lia.
Qed.

Lemma failures_app key db1 db2 :
  failures key (db1 ++ db2) = failures key db1 + failures key db2.
Proof.
  unfold failures. induction db1 as [|e db1 IH]; csimpl; [done|].
  rewrite IH. lia.
Qed.

(** The count of a field in [errors] is the number of items of that field
    that fail its predicate. *)
Lemma count_errors_failures key db :
  count key (count_errors db) = failures key db.
Proof. unfold count_errors. by rewrite count_foldl_check_entry. Qed.

Lemma length_alter_at {K V} `{EqDecision K} (f : V → V) (k : K) (d : list (K * V)) :
  length (alter_at f k d) = length d.
Proof.
  induction d as [|[k0 v0] d IH]; simpl; [done|].
  destruct (decide (k0 = k)); simpl; congruence.
Qed.

Lemma check_item_nil errors item :
  check_item errors item = [] ↔
  errors = [] ∧ db_fields_specification item.1 = None.
Proof.
  destruct item as [k v]. unfold check_item. simpl.
  destruct (db_fields_specification k) as [valid|]; [|tauto].
  assert (setdefault k 0 errors ≠ []) as Hne.
  { unfold setdefault. destruct (get k errors) eqn:Hg.
    - intros ->. done.
    - by destruct errors. }
  split; [|by intros [_ ?]]. intros Hnil. exfalso.
  destruct (valid v); simpl in Hnil; [done|].
  apply Hne, length_zero_iff_nil.
  by rewrite <-(length_alter_at S k), Hnil.
Qed.

Lemma check_entry_nil e errors :
  check_entry errors e = [] ↔
  errors = [] ∧ Forall (λ item, db_fields_specification item.1 = None) e.
Proof.
  unfold check_entry. revert errors.
  induction e as [|item e IH]; intros errors; simpl.
  - split; [by intros -> | by intros [-> _]].
  - rewrite IH, check_item_nil, Forall_cons. tauto.
Qed.

Lemma foldl_check_entry_nil db errors :
  foldl check_entry errors db = [] ↔
  errors = [] ∧
  Forall (Forall (λ item, db_fields_specification item.1 = None)) db.
Proof.
  revert errors. induction db as [|e db IH]; intros errors; simpl.
  - split; [by intros -> | by intros [-> _]].
  - rewrite IH, check_entry_nil, Forall_cons. tauto.
Qed.

(** What the returned boolean depends on: it is true exactly when no entry
    has any of the six keys, whatever the values are. *)
Lemma check_db_fields_returns db :
  (check_db_fields db).2 = true ↔
  Forall (Forall (λ item, db_fields_specification item.1 = None)) db.
Proof.
  unfold check_db_fields, count_errors. simpl.
  rewrite negb_true_iff, truthy_false, foldl_check_entry_nil. tauto.
Qed.

(** C1, at a dataset the code rejects: for the single record
    [valid_record], each of the six predicates holds and no field has a
    failure, nothing is printed, and [check_db_fields] returns [False]
    where the claim has [True].  The dict [errors] holds a zero for every
    key seen, so it is not empty. *)
Theorem check_db_fields_valid_record :
  forallb (λ item, field_ok item.1 item.2) (to_entry valid_record) = true ∧
  count_errors [to_entry valid_record] =
    [("bus_id", 0); ("stop_id", 0); ("stop_name", 0); ("next_stop", 0);
     ("stop_type", 0); ("a_time", 0)] ∧
  check_db_fields [to_entry valid_record] = ([], false).
Proof. by vm_compute. Qed.

(** C7: the predicate of [a_time] holds of the string "23:60", and an entry
    whose [a_time] is that string leaves the failure count of [a_time] as it
    was, in the loop and in the final count of any dataset around it. *)
Theorem a_time_23_60_accepted :
  field_ok "a_time" (VStr "23:60") = true ∧
  ∀ (e : entry), (∀ x, ("a_time", x) ∈ e → x = VStr "23:60") →
    (∀ errors, count "a_time" (check_entry errors e) = count "a_time" errors) ∧
    (∀ db1 db2, count "a_time" (count_errors (db1 ++ e :: db2)) =
                count "a_time" (count_errors (db1 ++ db2))).
Proof.
  split; [by vm_compute|]. intros e He.
  assert (entry_failures "a_time" e = 0) as H0.
  { unfold entry_failures. apply length_zero_iff_nil.
    induction e as [|[k x] e IH]; simpl; [done|].
    assert (item_fails "a_time" (k, x) = false) as ->.
    { unfold item_fails. simpl. destruct (decide (k = "a_time")) as [->|Hne].
      - rewrite (He x) by (apply elem_of_cons; by left). by vm_compute.
      - by rewrite bool_decide_eq_false_2. }
    apply IH. intros y Hy. apply He, elem_of_cons. by right. }
  split.
  - intros errors. rewrite count_check_entry, H0. lia.
  - intros db1 db2. rewrite !count_errors_failures, !failures_app.
    unfold failures at 2. csimpl. rewrite H0. fold (failures "a_time" db2). lia.
Qed.

Lemma a_time_23_60_accepted_witness :
  count "a_time"
    (check_entry [("a_time", 2)]
       [("bus_id", VInt 1); ("a_time", VStr "23:60")]) = 2.
Proof.
  refine (proj1 (proj2 a_time_23_60_accepted
            [("bus_id", VInt 1); ("a_time", VStr "23:60")] _) [("a_time", 2)]).
  intros x Hx. apply elem_of_cons in Hx as [Hx|Hx]; [discriminate Hx|].
  apply elem_of_cons in Hx as [Hx|Hx]; [by injection Hx as ->|].
  by apply elem_of_nil in Hx.
Defined.

(** C8: the predicate of [stop_name] rejects "annville Road", accepts
    "Annville Road" and rejects "Annville Lane". *)
Theorem stop_name_examples :
  field_ok "stop_name" (VStr "annville Road") = false ∧
  field_ok "stop_name" (VStr "Annville Road") = true ∧
  field_ok "stop_name" (VStr "Annville Lane") = false.
Proof. by vm_compute. Qed.

(** ** The first loop of [bus_lines_and_stops] *)

Section dict_split.
Context {K V : Type} `{EqDecision K}.
Implicit Types (d : list (K * V)) (k : K) (v : V).

Lemma get_split k v d :
  get k d = Some v → ∃ d1 d2, d = d1 ++ (k, v) :: d2 ∧ k ∉ keys d1.
Proof.
  induction d as [|[k0 v0] d IH]; simpl; [done|].
  destruct (decide (k0 = k)) as [->|Hne]; intros Hg.
  - injection Hg as ->. exists [], d. split; [done|]. apply not_elem_of_nil.
  - destruct (IH Hg) as (d1 & d2 & -> & Hk).
    exists ((k0, v0) :: d1), d2. split; [done|].
    unfold keys in *. csimpl. rewrite not_elem_of_cons. by split.
Qed.

Lemma get_middle k v d1 d2 :
  k ∉ keys d1 → get k (d1 ++ (k, v) :: d2) = Some v.
Proof.
  intros Hk. rewrite get_app. apply get_None in Hk. rewrite Hk. simpl.
  by rewrite decide_True.
Qed.

Lemma alter_at_middle f k v d1 d2 :
  k ∉ keys d1 →
  alter_at f k (d1 ++ (k, v) :: d2) = d1 ++ (k, f v) :: d2.
Proof.
  unfold keys. induction d1 as [|[k0 v0] d1 IH]; csimpl.
  - intros _. by rewrite decide_True.
  - rewrite not_elem_of_cons. intros [Hne Hk].
    rewrite decide_False by done. by rewrite IH.
Qed.
End dict_split.

(** The shape of the dict after one record is classified: the entry of the
    record's line is updated in place, or added at the end for a new line. *)
Lemma classify_split bus_lines e :
  ∃ d1 p d2,
    classify bus_lines e = d1 ++ (bus_id e, add_stop e p) :: d2 ∧
    (bus_id e ∉ keys d1) ∧
    ((bus_lines = d1 ++ (bus_id e, p) :: d2) ∨
     (bus_lines = d1 ∧ d2 = [] ∧ p = new_line)).
Proof.
  unfold classify, setdefault.
  destruct (get (bus_id e) bus_lines) as [p|] eqn:Hg.
  - destruct (get_split _ _ _ Hg) as (d1 & d2 & -> & Hk).
    exists d1, p, d2. rewrite alter_at_middle by done.
    split_and!; [done|done|by left].
  - exists bus_lines, new_line, []. apply get_None in Hg.
    rewrite alter_at_middle by done.
    split_and!; [done|done|by right].
Qed.

Lemma get_classify l bus_lines e :
  get l (classify bus_lines e) =
  if decide (bus_id e = l)
  then Some (add_stop e (default new_line (get l bus_lines)))
  else get l bus_lines.
Proof.
  unfold classify. rewrite get_alter_at, get_setdefault.
  destruct (get l bus_lines); by case_decide.
Qed.

Lemma keys_classify bus_lines e :
  keys (classify bus_lines e) =
  if decide (bus_id e ∈ keys bus_lines)
  then keys bus_lines else keys bus_lines ++ [bus_id e].
Proof. unfold classify. by rewrite keys_alter_at, keys_setdefault. Qed.

Lemma exceeds_add_stop e p : exceeds p = true → exceeds (add_stop e p) = true.
Proof.
  unfold exceeds, add_stop. rewrite !orb_true_iff, !Nat.ltb_lt.
  destruct (String.eqb _ "S"); [simpl; lia|].
  destruct (String.eqb _ "F"); simpl; lia.
Qed.

Lemma over_limit_classify bus_lines e :
  ∃ p, get (bus_id e) (classify bus_lines e) = Some p ∧
       over_limit (classify bus_lines e) e = exceeds p.
Proof.
  unfold over_limit. rewrite get_classify, decide_True by done. eauto.
Qed.

(** Counts only grow, and only on the line of the record: some count is
    above 1 after a record exactly when one was before or the test of the
    [break] holds. *)
Lemma exceeded_classify bus_lines e :
  exceeded (classify bus_lines e) =
  exceeded bus_lines || over_limit (classify bus_lines e) e.
Proof.
  destruct (over_limit_classify bus_lines e) as (q & Hq & ->).
  destruct (classify_split bus_lines e) as (d1 & p & d2 & Hc & Hk & Hb).
  rewrite Hc in Hq |- *. rewrite get_middle in Hq by done. injection Hq as <-.
  unfold exceeded. rewrite existsb_app. simpl.
  destruct Hb as [->|(-> & -> & ->)].
  - rewrite existsb_app. simpl.
    destruct (exceeds p) eqn:Hp.
    + rewrite (exceeds_add_stop e p Hp). by rewrite !orb_true_r.
    + simpl. generalize (exceeds (add_stop e p)) as c.
      generalize (existsb (λ kv : Z * LineTopology, exceeds kv.2) d1) as a.
      generalize (existsb (λ kv : Z * LineTopology, exceeds kv.2) d2) as b.
      by intros [] [] [].
  - simpl. generalize (exceeds (add_stop e new_line)) as c.
    generalize (existsb (λ kv : Z * LineTopology, exceeds kv.2) d1) as a.
    by intros [] [].
Qed.

Lemma scan_no_break bus_lines db :
  broke bus_lines db = false → scan bus_lines db = foldl classify bus_lines db.
Proof.
  revert bus_lines. induction db as [|e db IH]; intros bus_lines; simpl; [done|].
  destruct (over_limit _ e); [done|]. apply IH.
Qed.

Lemma broke_app_false bus_lines db1 db2 :
  broke bus_lines (db1 ++ db2) = false → broke bus_lines db1 = false.
Proof.
  revert bus_lines. induction db1 as [|e db1 IH]; intros bus_lines; simpl; [done|].
  destruct (over_limit _ e); [done|]. apply IH.
Qed.

Lemma scan_app bus_lines db1 db2 :
  broke bus_lines db1 = false →
  scan bus_lines (db1 ++ db2) = scan (scan bus_lines db1) db2.
Proof.
  revert bus_lines. induction db1 as [|e db1 IH]; intros bus_lines; simpl; [done|].
  destruct (over_limit _ e); [done|]. apply IH.
Qed.

Lemma broke_app bus_lines db1 db2 :
  broke bus_lines db1 = false →
  broke bus_lines (db1 ++ db2) = broke (scan bus_lines db1) db2.
Proof.
  revert bus_lines. induction db1 as [|e db1 IH]; intros bus_lines; simpl; [done|].
  destruct (over_limit _ e); [done|]. apply IH.
Qed.

(** Where the loop breaks: the records up to the first one whose test
    holds. *)
Lemma broke_split bus_lines db :
  broke bus_lines db = true →
  ∃ pre e post,
    db = pre ++ e :: post ∧ broke bus_lines pre = false ∧
    over_limit (classify (scan bus_lines pre) e) e = true.
Proof.
  revert bus_lines. induction db as [|e db IH]; intros bus_lines; simpl; [done|].
  destruct (over_limit _ e) eqn:Ho.
  - intros _. by exists [], e, db.
  - intros (pre & e' & post & -> & Hpre & Ho')%IH.
    exists (e :: pre), e', post. simpl. by rewrite Ho.
Qed.

(** The loop has left through the [break] exactly when the dict it leaves
    has a count above 1, provided none was above 1 at the start. *)
Lemma exceeded_scan bus_lines db :
  exceeded bus_lines = false →
  exceeded (scan bus_lines db) = broke bus_lines db.
Proof.
  revert bus_lines. induction db as [|e db IH]; intros bus_lines Hx; simpl; [done|].
  pose proof (exceeded_classify bus_lines e) as Hc. rewrite Hx in Hc. simpl in Hc.
  destruct (over_limit _ e); [done|]. by apply IH.
Qed.

(** ** What the first loop stores for a line *)

Lemma line_nil l db : line l db = [] ↔ l ∉ bus_ids db.
Proof.
  unfold line, bus_ids. induction db as [|e db IH]; csimpl.
  - split; [intros _; apply not_elem_of_nil | done].
  - rewrite filter_cons, not_elem_of_cons. case_decide as He.
    + split; [intros [=] | intros [Hne _]; by destruct Hne].
    + rewrite IH. split; [by split | by intros [_ ?]].
Qed.

Lemma get_foldl_classify l bus_lines db :
  get l (foldl classify bus_lines db) =
  if decide (line l db = []) then get l bus_lines
  else Some (add_stops (default new_line (get l bus_lines)) (line l db)).
Proof.
  unfold line, add_stops. revert bus_lines.
  induction db as [|e db IH]; intros bus_lines; simpl; [done|].
  rewrite IH, get_classify, filter_cons.
  destruct (decide (bus_id e = l)) as [He|He]; [|done].
  rewrite (decide_False (P := _ :: _ = [])) by discriminate. simpl.
  by case_decide as Hl; [rewrite Hl|].
Qed.

Lemma start_count_add_stops p rs :
  start_count (add_stops p rs) =
  start_count p + length (filter (λ e, stop_type e = "S") rs).
Proof.
  unfold add_stops. revert p. induction rs as [|e rs IH]; intros p; simpl; [lia|].
  rewrite IH, filter_cons. unfold add_stop.
  destruct (String.eqb_spec (stop_type e) "S") as [Hs|Hs].
  - rewrite decide_True by done. simpl. lia.
  - rewrite decide_False by done. destruct (String.eqb _ "F"); simpl; lia.
Qed.

Lemma final_count_add_stops p rs :
  final_count (add_stops p rs) =
  final_count p + length (filter (λ e, stop_type e = "F") rs).
Proof.
  unfold add_stops. revert p. induction rs as [|e rs IH]; intros p; simpl; [lia|].
  rewrite IH, filter_cons. unfold add_stop.
  destruct (String.eqb_spec (stop_type e) "S") as [Hs|Hs].
  - rewrite decide_False by (rewrite Hs; discriminate). simpl. lia.
  - destruct (String.eqb_spec (stop_type e) "F") as [Hf|Hf].
    + rewrite decide_True by done. simpl. lia.
    + rewrite decide_False by done. simpl. lia.
Qed.

(** Every record classified on a line leaves its name in the stops of the
    line, and a record that is neither "S" nor "F" leaves it among the
    other stops. *)
Lemma add_stop_names e p :
  stop_name e ∈ line_stops (add_stop e p) ∧
  (stop_type e ≠ "S" → stop_type e ≠ "F" →
   stop_name e ∈ other_stop_names (add_stop e p) ∧
   start_count (add_stop e p) = start_count p ∧
   final_count (add_stop e p) = final_count p ∧
   start_stop_names (add_stop e p) = start_stop_names p ∧
   final_stop_names (add_stop e p) = final_stop_names p).
Proof.
  unfold line_stops, add_stop.
  destruct (String.eqb_spec (stop_type e) "S") as [Hs|Hs]; simpl.
  { split; [set_solver | done]. }
  destruct (String.eqb_spec (stop_type e) "F") as [Hf|Hf]; simpl.
  { split; [set_solver | done]. }
  split; [set_solver|]. intros _ _. split_and!; [set_solver|done..].
Qed.

Lemma add_stop_mono e p :
  start_stop_names p ⊆ start_stop_names (add_stop e p) ∧
  final_stop_names p ⊆ final_stop_names (add_stop e p) ∧
  other_stop_names p ⊆ other_stop_names (add_stop e p).
Proof.
  unfold add_stop.
  destruct (String.eqb _ "S"); [simpl; set_solver|].
  destruct (String.eqb _ "F"); simpl; set_solver.
Qed.

Lemma add_stops_mono p rs :
  start_stop_names p ⊆ start_stop_names (add_stops p rs) ∧
  final_stop_names p ⊆ final_stop_names (add_stops p rs) ∧
  other_stop_names p ⊆ other_stop_names (add_stops p rs).
Proof.
  unfold add_stops. revert p. induction rs as [|e rs IH]; intros p; simpl; [done|].
  destruct (IH (add_stop e p)) as (H1 & H2 & H3).
  destruct (add_stop_mono e p) as (G1 & G2 & G3).
  split_and!; etrans; eauto.
Qed.

Lemma add_stops_other p rs e :
  e ∈ rs → stop_type e ≠ "S" → stop_type e ≠ "F" →
  stop_name e ∈ other_stop_names (add_stops p rs).
Proof.
  unfold add_stops. revert p. induction rs as [|e' rs IH]; intros p Hin Hs Hf.
  - by apply elem_of_nil in Hin.
  - apply elem_of_cons in Hin as [->|Hin]; simpl; [|by apply IH].
    destruct (add_stops_mono (add_stop e' p) rs) as (_ & _ & Hm).
    apply Hm. by apply add_stop_names.
Qed.

Lemma add_stops_line_stops p rs e :
  e ∈ rs → stop_name e ∈ line_stops (add_stops p rs).
Proof.
  unfold add_stops. revert p. induction rs as [|e' rs IH]; intros p Hin.
  - by apply elem_of_nil in Hin.
  - apply elem_of_cons in Hin as [->|Hin]; simpl; [|by apply IH].
    destruct (add_stops_mono (add_stop e' p) rs) as (H1 & H2 & H3).
    pose proof (proj1 (add_stop_names e' p)) as Hn.
    unfold line_stops in *. set_solver.
Qed.

Lemma NoDup_keys_classify bus_lines e :
  NoDup (keys bus_lines) → NoDup (keys (classify bus_lines e)).
Proof.
  intros Hnd. unfold classify. rewrite keys_alter_at.
  by apply NoDup_keys_setdefault.
Qed.

Lemma NoDup_keys_scan bus_lines db :
  NoDup (keys bus_lines) → NoDup (keys (scan bus_lines db)).
Proof.
  revert bus_lines. induction db as [|e db IH]; intros bus_lines Hnd; simpl; [done|].
  pose proof (NoDup_keys_classify bus_lines e Hnd).
  destruct (over_limit _ e); [done|]. by apply IH.
Qed.

(** [find] returns the first element that satisfies the test. *)
Lemma find_split {A} (f : A → bool) (l : list A) x :
  x ∈ l → f x = true →
  ∃ before y after,
    l = before ++ y :: after ∧ Forall (λ z, f z = false) before ∧
    f y = true ∧ List.find f l = Some y.
Proof.
  induction l as [|z l IH]; intros Hin Hx.
  - by apply elem_of_nil in Hin.
  - simpl. destruct (f z) eqn:Hz.
    + exists [], z, l. by split_and!.
    + apply elem_of_cons in Hin as [->|Hin]; [congruence|].
      destruct (IH Hin Hx) as (before & y & after & -> & Hb & Hy & Hf).
      exists (z :: before), y, after. split_and!; [done| |done|done].
      by constructor.
Qed.

Lemma find_None_Forall {A} (f : A → bool) (l : list A) :
  List.find f l = None → Forall (λ z, f z = false) l.
Proof.
  induction l as [|z l IH]; simpl; [by constructor|].
  destruct (f z) eqn:Hz; [done|]. intros Hf. constructor; auto.
Qed.

Lemma exceeds_not_one p : exceeds p = true → one_start_one_final p = false.
Proof.
  unfold exceeds, one_start_one_final.
  rewrite orb_true_iff, andb_false_iff, !Nat.ltb_lt, !Nat.eqb_neq. lia.
Qed.

Lemma exceeded_elem bus_lines :
  exceeded bus_lines = true →
  ∃ l p, (l, p) ∈ bus_lines ∧ exceeds p = true.
Proof.
  unfold exceeded. rewrite existsb_exists.
  intros ([l p] & Hin & Hp). exists l, p. split; [|done].
  by apply list_elem_of_In.
Qed.

(** The outcome of [bus_lines_and_stops] when some line of the dict fails
    the assertion: the exit names the first such line of the dict. *)
Lemma bus_lines_and_stops_violation db l p :
  (l, p) ∈ scan [] db → one_start_one_final p = false →
  ∃ before n q after,
    scan [] db = before ++ (n, q) :: after ∧
    Forall (λ kv, one_start_one_final kv.2 = true) before ∧
    one_start_one_final q = false ∧
    bus_lines_and_stops db = Exit [NoStartOrEndStop n] 1.
Proof.
  intros Hin Hp.
  destruct (find_split (λ kv, negb (one_start_one_final kv.2)) _ (l, p) Hin)
    as (before & [n q] & after & Hs & Hb & Hq & Hf).
  { simpl. by rewrite Hp. }
  exists before, n, q, after. split_and!; [done| | |].
  - eapply Forall_impl; [exact Hb|]. intros kv. simpl. by rewrite negb_false_iff.
  - simpl in Hq. by apply negb_true_iff.
  - unfold bus_lines_and_stops, first_violation. by rewrite Hf.
Qed.

(** When [bus_lines_and_stops] returns, the loop has not left through the
    [break] and every record has been classified. *)
Lemma bus_lines_and_stops_Return db bus_lines :
  bus_lines_and_stops db = Return bus_lines →
  bus_lines = foldl classify [] db ∧ broke [] db = false ∧
  Forall (λ kv, one_start_one_final kv.2 = true) bus_lines.
Proof.
  unfold bus_lines_and_stops, first_violation.
  destruct (List.find _ _) as [[n q]|] eqn:Hf; [done|].
  intros [= <-]. apply find_None_Forall in Hf.
  assert (Forall (λ kv : Z * LineTopology, one_start_one_final kv.2 = true)
            (scan [] db)) as Hall.
  { eapply Forall_impl; [exact Hf|]. intros kv. simpl. by rewrite negb_false_iff. }
  assert (broke [] db = false) as Hb.
  { rewrite <-exceeded_scan by done.
    destruct (exceeded (scan [] db)) eqn:Hx; [|done].
    apply exceeded_elem in Hx as (l & p & Hin & Hp%exceeds_not_one).
    rewrite Forall_forall in Hall. specialize (Hall _ Hin). simpl in Hall.
    congruence. }
  split_and!; [by apply scan_no_break|done|done].
Qed.

(** ** [bus_lines_and_stops] *)

(** C3: once the records of [pre] are classified without a break, if
    classifying the next record [e] leaves some line with a start count or
    a final count above 1, the loop ends there: the dict is the one left by
    [e], whatever records [post] follow and whatever their lines are. *)
Theorem scan_short_circuit pre e post :
  broke [] pre = false →
  exceeded (classify (scan [] pre) e) = true →
  broke [] (pre ++ e :: post) = true ∧
  scan [] (pre ++ e :: post) = classify (scan [] pre) e ∧
  scan [] (pre ++ e :: post) = scan [] (pre ++ [e]).
Proof.
  intros Hpre Hx.
  assert (over_limit (classify (scan [] pre) e) e = true) as Ho.
  { rewrite exceeded_classify, exceeded_scan, Hpre in Hx by done. done. }
  rewrite broke_app, !scan_app by done. simpl. by rewrite Ho.
Qed.

(** C9: when the loop leaves through the [break], at a record [e], the line
    of [e] is in the dict with a count above 1, it fails the assertion, and
    [bus_lines_and_stops] exits with status 1. *)
Theorem short_circuit_exits db :
  broke [] db = true →
  ∃ pre e post p,
    db = pre ++ e :: post ∧ broke [] pre = false ∧
    get (bus_id e) (scan [] db) = Some p ∧
    (1 < start_count p ∨ 1 < final_count p) ∧
    one_start_one_final p = false ∧
    ∃ n, bus_lines_and_stops db = Exit [NoStartOrEndStop n] 1.
Proof.
  intros (pre & e & post & -> & Hpre & Ho)%broke_split.
  destruct (over_limit_classify (scan [] pre) e) as (p & Hg & Hp).
  rewrite Ho in Hp. symmetry in Hp.
  assert (scan [] (pre ++ e :: post) = classify (scan [] pre) e) as Hs.
  { rewrite scan_app by done. simpl. by rewrite Ho. }
  exists pre, e, post, p. rewrite Hs. split_and!; [done|done|done| | |].
  - unfold exceeds in Hp. by rewrite orb_true_iff, !Nat.ltb_lt in Hp.
  - by apply exceeds_not_one.
  - rewrite <-Hs in Hg. apply get_Some_elem_of in Hg.
    destruct (bus_lines_and_stops_violation _ _ _ Hg (exceeds_not_one _ Hp))
      as (_ & n & _ & _ & _ & _ & _ & Hexit).
    by exists n.
Qed.

Lemma scan_short_circuit_witness :
  broke [] ([stop 1 "A" "S" ""] ++ stop 1 "B" "S" "" :: [stop 2 "C" "S" ""]) = true ∧
  scan [] ([stop 1 "A" "S" ""] ++ stop 1 "B" "S" "" :: [stop 2 "C" "S" ""]) =
    classify (scan [] [stop 1 "A" "S" ""]) (stop 1 "B" "S" "") ∧
  scan [] ([stop 1 "A" "S" ""] ++ stop 1 "B" "S" "" :: [stop 2 "C" "S" ""]) =
    scan [] ([stop 1 "A" "S" ""] ++ [stop 1 "B" "S" ""]).
Proof.
  apply (scan_short_circuit [stop 1 "A" "S" ""] (stop 1 "B" "S" "")
           [stop 2 "C" "S" ""]); reflexivity.
Defined.

Lemma short_circuit_exits_witness :
  ∃ pre e post p,
    [stop 1 "A" "S" ""; stop 1 "B" "S" ""; stop 2 "C" "S" ""] = pre ++ e :: post ∧
    broke [] pre = false ∧
    get (bus_id e)
      (scan [] [stop 1 "A" "S" ""; stop 1 "B" "S" ""; stop 2 "C" "S" ""]) = Some p ∧
    (1 < start_count p ∨ 1 < final_count p) ∧
    one_start_one_final p = false ∧
    ∃ n, bus_lines_and_stops
           [stop 1 "A" "S" ""; stop 1 "B" "S" ""; stop 2 "C" "S" ""] =
         Exit [NoStartOrEndStop n] 1.
Proof.
  apply (short_circuit_exits
           [stop 1 "A" "S" ""; stop 1 "B" "S" ""; stop 2 "C" "S" ""]).
  reflexivity.
Defined.

(** ** [check_start_final_transfer_stops] *)

Lemma foldl_collect_stops vs start_stops finish_stops all_stops :
  foldl (λ '(start_stops, finish_stops, all_stops) bus_line,
           (start_stops ∪ start_stop_names bus_line,
            finish_stops ∪ final_stop_names bus_line,
            all_stops ++ [line_stops bus_line]))
        (start_stops, finish_stops, all_stops) vs =
  (start_stops ∪ ⋃ (start_stop_names <$> vs),
   finish_stops ∪ ⋃ (final_stop_names <$> vs),
   all_stops ++ (line_stops <$> vs)).
Proof.
  revert start_stops finish_stops all_stops.
  induction vs as [|v vs IH]; intros s f a; csimpl.
  - by rewrite !(right_id_L ∅ (∪)), app_nil_r.
  - by rewrite IH, <-!(assoc_L (∪)), <-app_assoc.
Qed.

Lemma collect_stops_eq vs :
  collect_stops vs =
  (⋃ (start_stop_names <$> vs), ⋃ (final_stop_names <$> vs), line_stops <$> vs).
Proof.
  unfold collect_stops. rewrite foldl_collect_stops.
  by rewrite !(left_id_L ∅ (∪)).
Qed.

Lemma foldl_collect_transfers pairs (transfer_stops : gset string) :
  foldl (λ transfer_stops '(u, v), transfer_stops ∪ (u ∩ v)) transfer_stops pairs =
  transfer_stops ∪ ⋃ ((λ uv, uv.1 ∩ uv.2) <$> pairs).
Proof.
  revert transfer_stops. induction pairs as [|[u v] pairs IH]; intros t; csimpl.
  - by rewrite (right_id_L ∅ (∪)).
  - by rewrite IH, <-(assoc_L (∪)).
Qed.

Lemma collect_transfers_eq pairs :
  collect_transfers pairs = ⋃ ((λ uv, uv.1 ∩ uv.2) <$> pairs).
Proof.
  unfold collect_transfers. rewrite foldl_collect_transfers.
  by rewrite (left_id_L ∅ (∪)).
Qed.

Lemma elem_of_transfers_pair (u : gset string) (gs : list (gset string)) n :
  n ∈ ⋃ ((λ uv, uv.1 ∩ uv.2) <$> (pair u <$> gs)) ↔
  n ∈ u ∧ ∃ v, v ∈ gs ∧ n ∈ v.
Proof.
  rewrite elem_of_union_list. split.
  - intros (X & HX & Hn). apply list_elem_of_fmap in HX as ([u' v] & -> & Huv).
    apply list_elem_of_fmap in Huv as (v' & [= -> ->] & Hv).
    simpl in Hn. apply elem_of_intersection in Hn as [Hu Hn]. eauto.
  - intros (Hu & v & Hv & Hn). exists (u ∩ v). split.
    + apply list_elem_of_fmap. exists (u, v). split; [done|].
      apply list_elem_of_fmap. by exists v.
    + by apply elem_of_intersection.
Qed.

(** The names collected by the loop over the pairs: those that are stops of
    two entries of the dict with different keys. *)
Lemma elem_of_transfers (bus_lines : list (Z * LineTopology)) n :
  NoDup (keys bus_lines) →
  n ∈ ⋃ ((λ uv, uv.1 ∩ uv.2) <$> combinations2 (line_stops <$> values bus_lines)) ↔
  ∃ l1 l2 p1 p2,
    l1 ≠ l2 ∧ (l1, p1) ∈ bus_lines ∧ (l2, p2) ∈ bus_lines ∧
    n ∈ line_stops p1 ∩ line_stops p2.
Proof.
  unfold keys, values. induction bus_lines as [|[k p] bl IH]; csimpl.
  - intros _. split.
    + intros Hn. by apply elem_of_empty in Hn.
    + intros (l1 & l2 & p1 & p2 & _ & Hin & _). by apply elem_of_nil in Hin.
  - rewrite NoDup_cons. intros [Hk Hnd].
    rewrite fmap_app, union_list_app, elem_of_union, elem_of_transfers_pair.
    rewrite (IH Hnd). clear IH.
    assert (∀ l q, (l, q) ∈ bl → l ≠ k) as Hne.
    { intros l q Hin ->. apply Hk, list_elem_of_fmap. by exists (k, q). }
    split.
    + intros [(Hp & v & Hv & Hn)|(l1 & l2 & p1 & p2 & Hd & H1 & H2 & Hn)].
      * apply list_elem_of_fmap in Hv as (q & -> & Hq).
        apply list_elem_of_fmap in Hq as ([l q'] & -> & Hq). simpl in *.
        exists k, l, p, q'. split_and!.
        -- intros ->. by eapply Hne.
        -- apply elem_of_cons. by left.
        -- apply elem_of_cons. by right.
        -- by apply elem_of_intersection.
      * exists l1, l2, p1, p2. split_and!; [done| | |done];
          apply elem_of_cons; by right.
    + intros (l1 & l2 & p1 & p2 & Hd & H1 & H2 & Hn).
      apply elem_of_intersection in Hn as [Hn1 Hn2].
      assert (∀ l q, (l, q) ∈ bl → n ∈ line_stops q →
                ∃ v, v ∈ line_stops <$> bl.*2 ∧ n ∈ v) as Hex.
      { intros l q Hin Hq. exists (line_stops q). split; [|done].
        apply list_elem_of_fmap. exists q. split; [done|].
        apply list_elem_of_fmap. by exists (l, q). }
      apply elem_of_cons in H1 as [[= -> ->]|H1];
        apply elem_of_cons in H2 as [[= -> ->]|H2].
      * done.
      * left. split; [done|]. by eapply Hex.
      * left. split; [done|]. by eapply Hex.
      * right. exists l1, l2, p1, p2. split_and!; [done..|].
        by apply elem_of_intersection.
Qed.

Lemma NoDup_keys_bus_lines db bus_lines :
  bus_lines_and_stops db = Return bus_lines → NoDup (keys bus_lines).
Proof.
  unfold bus_lines_and_stops. destruct (first_violation _) as [[n q]|]; [done|].
  intros [= <-]. apply NoDup_keys_scan. constructor.
Qed.

Lemma get_iff_elem_of {V} (d : list (Z * V)) l v :
  NoDup (keys d) → get l d = Some v ↔ (l, v) ∈ d.
Proof. intros Hnd. split; [apply get_Some_elem_of | by apply elem_of_get]. Qed.

(** The triple returned when the topology check passes. *)
Lemma check_start_final_transfer_stops_Return db bus_lines :
  bus_lines_and_stops db = Return bus_lines →
  check_start_final_transfer_stops db =
  Return (⋃ (start_stop_names <$> values bus_lines),
          ⋃ ((λ uv, uv.1 ∩ uv.2) <$>
               combinations2 (line_stops <$> values bus_lines)),
          ⋃ (final_stop_names <$> values bus_lines)).
Proof.
  intros Hret. unfold check_start_final_transfer_stops. rewrite Hret. simpl.
  by rewrite collect_stops_eq, collect_transfers_eq.
Qed.

Lemma elem_of_transfer_stops db bus_lines n :
  bus_lines_and_stops db = Return bus_lines →
  n ∈ ⋃ ((λ uv, uv.1 ∩ uv.2) <$>
           combinations2 (line_stops <$> values bus_lines)) ↔
  ∃ l1 l2 p1 p2,
    l1 ≠ l2 ∧ get l1 bus_lines = Some p1 ∧ get l2 bus_lines = Some p2 ∧
    n ∈ line_stops p1 ∩ line_stops p2.
Proof.
  intros Hnd%NoDup_keys_bus_lines. rewrite elem_of_transfers by done.
  split; intros (l1 & l2 & p1 & p2 & Hd & H1 & H2 & Hn);
    exists l1, l2, p1, p2; split_and!; try done;
    by apply (get_iff_elem_of bus_lines).
Qed.

Lemma elem_of_union_values (f : LineTopology → gset string)
    (bus_lines : list (Z * LineTopology)) n :
  NoDup (keys bus_lines) →
  n ∈ ⋃ (f <$> values bus_lines) ↔
  ∃ l p, get l bus_lines = Some p ∧ n ∈ f p.
Proof.
  intros Hnd. rewrite elem_of_union_list. unfold values. split.
  - intros (X & HX & Hn). apply list_elem_of_fmap in HX as (p & -> & Hp).
    apply list_elem_of_fmap in Hp as ([l q] & -> & Hq).
    exists l, q. split; [by apply get_iff_elem_of|done].
  - intros (l & p & Hg & Hn). exists (f p). split; [|done].
    apply list_elem_of_fmap. exists p. split; [done|].
    apply list_elem_of_fmap. exists (l, p). split; [done|].
    by apply get_iff_elem_of.
Qed.

(** C5: when the topology check passes with the dict [bus_lines],
    [check_start_final_transfer_stops] returns the union of the start names
    of the lines, the transfer stops and the union of the final names of
    the lines; the transfer stops are the union of [u ∩ v] over the pairs
    of the lines' stop sets, and a name is a transfer stop exactly when it
    is among the stops (start, final or other) of two lines with different
    ids. *)
Theorem check_start_final_transfer_stops_spec db bus_lines :
  bus_lines_and_stops db = Return bus_lines →
  ∃ start_stops transfer_stops finish_stops,
    check_start_final_transfer_stops db =
      Return (start_stops, transfer_stops, finish_stops) ∧
    start_stops = ⋃ (start_stop_names <$> values bus_lines) ∧
    finish_stops = ⋃ (final_stop_names <$> values bus_lines) ∧
    transfer_stops =
      ⋃ ((λ uv, uv.1 ∩ uv.2) <$>
           combinations2 (line_stops <$> values bus_lines)) ∧
    (∀ n, n ∈ start_stops ↔
          ∃ l p, get l bus_lines = Some p ∧ n ∈ start_stop_names p) ∧
    (∀ n, n ∈ finish_stops ↔
          ∃ l p, get l bus_lines = Some p ∧ n ∈ final_stop_names p) ∧
    (∀ n, n ∈ transfer_stops ↔
          ∃ l1 l2 p1 p2,
            l1 ≠ l2 ∧ get l1 bus_lines = Some p1 ∧ get l2 bus_lines = Some p2 ∧
            n ∈ (start_stop_names p1 ∪ final_stop_names p1 ∪ other_stop_names p1) ∩
                (start_stop_names p2 ∪ final_stop_names p2 ∪ other_stop_names p2)).
Proof.
  intros Hret. pose proof (NoDup_keys_bus_lines _ _ Hret) as Hnd.
  eexists _, _, _. split; [by apply check_start_final_transfer_stops_Return|].
  split_and!; [done|done|done| | |].
  - intros n. by apply elem_of_union_values.
  - intros n. by apply elem_of_union_values.
  - intros n. by apply (elem_of_transfer_stops db).
Qed.

Lemma check_start_final_transfer_stops_witness :
  ∃ start_stops transfer_stops finish_stops,
    check_start_final_transfer_stops central_db =
      Return (start_stops, transfer_stops, finish_stops) ∧
    start_stops = ⋃ (start_stop_names <$> values (scan [] central_db)) ∧
    finish_stops = ⋃ (final_stop_names <$> values (scan [] central_db)) ∧
    transfer_stops =
      ⋃ ((λ uv, uv.1 ∩ uv.2) <$>
           combinations2 (line_stops <$> values (scan [] central_db))) ∧
    (∀ n, n ∈ start_stops ↔
          ∃ l p, get l (scan [] central_db) = Some p ∧ n ∈ start_stop_names p) ∧
    (∀ n, n ∈ finish_stops ↔
          ∃ l p, get l (scan [] central_db) = Some p ∧ n ∈ final_stop_names p) ∧
    (∀ n, n ∈ transfer_stops ↔
          ∃ l1 l2 p1 p2,
            l1 ≠ l2 ∧ get l1 (scan [] central_db) = Some p1 ∧
            get l2 (scan [] central_db) = Some p2 ∧
            n ∈ (start_stop_names p1 ∪ final_stop_names p1 ∪ other_stop_names p1) ∩
                (start_stop_names p2 ∪ final_stop_names p2 ∪ other_stop_names p2)).
Proof.
  apply (check_start_final_transfer_stops_spec central_db (scan [] central_db)).
  reflexivity.
Defined.

(** The example of the shared stop "Central": the three sets returned. *)
Example central_is_transfer_stop :
  ∃ start_stops transfer_stops finish_stops,
    check_start_final_transfer_stops central_db =
      Return (start_stops, transfer_stops, finish_stops) ∧
    elements start_stops ≡ₚ ["X"; "Central"] ∧
    elements transfer_stops = ["Central"] ∧
    elements finish_stops ≡ₚ ["Y"; "Z"].
Proof.
  eexists _, _, _. split; [reflexivity|].
  split_and!; vm_compute; [|done|]; by rewrite (Permutation_swap _ _ []).
Qed.

(** ** Other stops and transfer stops *)

Lemma get_returned db bus_lines e :
  bus_lines_and_stops db = Return bus_lines → e ∈ db →
  e ∈ line (bus_id e) db ∧
  get (bus_id e) bus_lines = Some (add_stops new_line (line (bus_id e) db)).
Proof.
  intros (-> & _ & _)%bus_lines_and_stops_Return Hin.
  assert (e ∈ line (bus_id e) db) as He by (by apply list_elem_of_filter).
  split; [done|]. rewrite get_foldl_classify, decide_False; [done|].
  intros Hnil. rewrite Hnil in He. by apply elem_of_nil in He.
Qed.

(** C10: classifying a record whose [stop_type] is neither "S" nor "F"
    puts its name among the other stops of its line and changes neither
    count; when the topology check passes, the name of every such record of
    the dataset is among the other stops, hence among the stops, of its
    line in the dict returned; and the name of an on-demand record that is
    also the name of a record of another line is a transfer stop. *)
Theorem other_stops_feed_transfer_stops :
  (∀ bus_lines e, stop_type e ≠ "S" → stop_type e ≠ "F" →
     ∃ p, get (bus_id e) (classify bus_lines e) = Some p ∧
          p = add_stop e (default new_line (get (bus_id e) bus_lines)) ∧
          stop_name e ∈ other_stop_names p ∧
          start_count p = start_count (default new_line (get (bus_id e) bus_lines)) ∧
          final_count p = final_count (default new_line (get (bus_id e) bus_lines))) ∧
  (∀ db bus_lines e,
     bus_lines_and_stops db = Return bus_lines → e ∈ db →
     stop_type e ≠ "S" → stop_type e ≠ "F" →
     ∃ p, get (bus_id e) bus_lines = Some p ∧
          stop_name e ∈ other_stop_names p ∧
          stop_name e ∈ start_stop_names p ∪ final_stop_names p ∪ other_stop_names p) ∧
  (∀ db bus_lines e1 e2,
     bus_lines_and_stops db = Return bus_lines → e1 ∈ db → e2 ∈ db →
     stop_type e1 = "O" → bus_id e1 ≠ bus_id e2 → stop_name e2 = stop_name e1 →
     ∃ start_stops transfer_stops finish_stops,
       check_start_final_transfer_stops db =
         Return (start_stops, transfer_stops, finish_stops) ∧
       stop_name e1 ∈ transfer_stops).
Proof.
  split_and!.
  - intros bus_lines e Hs Hf. eexists. rewrite get_classify, decide_True by done.
    split; [done|]. split; [done|].
    destruct (add_stop_names e (default new_line (get (bus_id e) bus_lines)))
      as (_ & Ho). destruct (Ho Hs Hf) as (H1 & H2 & H3 & _). done.
  - intros db bus_lines e Hret Hin Hs Hf.
    destruct (get_returned _ _ _ Hret Hin) as (He & Hg).
    eexists. split; [exact Hg|].
    pose proof (add_stops_other new_line _ e He Hs Hf) as Ho.
    split; [done|]. set_solver.
  - intros db bus_lines e1 e2 Hret H1 H2 Ho Hd Hn.
    eexists _, _, _.
    split; [by apply check_start_final_transfer_stops_Return|].
    destruct (get_returned _ _ _ Hret H1) as (He1 & Hg1).
    destruct (get_returned _ _ _ Hret H2) as (He2 & Hg2).
    apply (elem_of_transfer_stops db); [done|].
    eexists (bus_id e1), (bus_id e2), _, _.
    split_and!; [done|exact Hg1|exact Hg2|].
    apply elem_of_intersection. split.
    + by apply add_stops_line_stops.
    + rewrite <-Hn. by apply add_stops_line_stops.
Qed.

Lemma other_stops_feed_transfer_stops_witness :
  ∃ start_stops transfer_stops finish_stops,
    check_start_final_transfer_stops on_demand_db =
      Return (start_stops, transfer_stops, finish_stops) ∧
    stop_name (stop 1 "Central" "O" "08:10") ∈ transfer_stops.
Proof.
  apply (proj2 (proj2 other_stops_feed_transfer_stops)
           on_demand_db (scan [] on_demand_db)
           (stop 1 "Central" "O" "08:10") (stop 2 "Central" "O" "09:10")).
  - reflexivity.
  - apply elem_of_cons; right. apply elem_of_cons; by left.
  - do 4 (apply elem_of_cons; right). apply elem_of_cons; by left.
  - reflexivity.
  - discriminate.
  - reflexivity.
Defined.

(** ** [check_atime] *)

Lemma atime_loop_snoc pre e :
  atime_loop (pre ++ [e]) = atime_step (atime_loop pre) e.
Proof. unfold atime_loop. by rewrite foldl_app. Qed.

Lemma ltb_not_leb s t : String.ltb s t = negb (String.leb t s).
Proof.
  unfold String.ltb, String.leb. rewrite (String.compare_antisym t s).
  by destruct (String.compare s t).
Qed.

(** The four cases of the loop body. *)
Lemma atime_step_first st e :
  bus_id e ∉ bus_line_blacklist st →
  bus_last_stop_arrival_time st !! bus_id e = None →
  atime_step st e = set_time st e.
Proof. intros Hb Hl. unfold atime_step. by rewrite decide_False, Hl. Qed.

Lemma atime_step_later st e t :
  bus_id e ∉ bus_line_blacklist st →
  bus_last_stop_arrival_time st !! bus_id e = Some t →
  String.leb t (a_time e) = true →
  atime_step st e = set_time st e.
Proof. intros Hb Hl Ht. unfold atime_step. by rewrite decide_False, Hl, Ht. Qed.

Lemma atime_step_earlier st e t :
  bus_id e ∉ bus_line_blacklist st →
  bus_last_stop_arrival_time st !! bus_id e = Some t →
  String.ltb (a_time e) t = true →
  atime_step st e = blacklist_line st e.
Proof.
  intros Hb Hl Ht. rewrite ltb_not_leb, negb_true_iff in Ht.
  unfold atime_step. by rewrite decide_False, Hl, Ht.
Qed.

Lemma atime_step_skipped st e :
  bus_id e ∈ bus_line_blacklist st → atime_step st e = st.
Proof. intros Hb. unfold atime_step. by rewrite decide_True. Qed.

(** What one step keeps: a blacklisted line has a tracked time, the lines
    with a tracked time are those met so far, and the blacklist grows. *)
Lemma atime_step_dom st e :
  bus_line_blacklist st ⊆ dom (bus_last_stop_arrival_time st) →
  dom (bus_last_stop_arrival_time (atime_step st e)) =
    dom (bus_last_stop_arrival_time st) ∪ {[bus_id e]} ∧
  bus_line_blacklist (atime_step st e) ⊆
    dom (bus_last_stop_arrival_time (atime_step st e)) ∧
  bus_line_blacklist st ⊆ bus_line_blacklist (atime_step st e).
Proof.
  intros Hsub. unfold atime_step.
  destruct (decide (bus_id e ∈ bus_line_blacklist st)) as [Hb|Hb].
  { split_and!; [|done|done]. apply Hsub in Hb. set_solver. }
  destruct (bus_last_stop_arrival_time st !! bus_id e) as [t|] eqn:Hl.
  - assert (bus_id e ∈ dom (bus_last_stop_arrival_time st)) as Hd.
    { apply elem_of_dom. by eexists. }
    destruct (String.leb t (a_time e)); simpl.
    + rewrite dom_insert_L. set_solver.
    + set_solver.
  - simpl. rewrite dom_insert_L. set_solver.
Qed.

Lemma atime_loop_dom pre :
  dom (bus_last_stop_arrival_time (atime_loop pre)) = list_to_set (bus_ids pre) ∧
  bus_line_blacklist (atime_loop pre) ⊆
    dom (bus_last_stop_arrival_time (atime_loop pre)).
Proof.
  induction pre as [|e pre [IHd IHb]] using rev_ind.
  - unfold atime_loop, bus_ids. simpl. split; [by rewrite dom_empty_L | done].
  - rewrite atime_loop_snoc.
    destruct (atime_step_dom (atime_loop pre) e IHb) as (Hd & Hb & _).
    split; [|done]. rewrite Hd, IHd. unfold bus_ids.
    rewrite fmap_app, list_to_set_app_L. simpl. set_solver.
Qed.

(** A line has no tracked time exactly when none of its records has been
    met. *)
Lemma atime_loop_first pre l :
  bus_last_stop_arrival_time (atime_loop pre) !! l = None ↔ l ∉ bus_ids pre.
Proof.
  rewrite <-not_elem_of_dom, (proj1 (atime_loop_dom pre)).
  by rewrite elem_of_list_to_set.
Qed.

Lemma atime_loop_not_blacklisted pre l :
  l ∉ bus_ids pre → l ∉ bus_line_blacklist (atime_loop pre).
Proof.
  intros Hl Hb. apply (proj2 (atime_loop_dom pre)) in Hb.
  rewrite (proj1 (atime_loop_dom pre)), elem_of_list_to_set in Hb. done.
Qed.

Lemma atime_loop_mono pre post :
  bus_line_blacklist (atime_loop pre) ⊆ bus_line_blacklist (atime_loop (pre ++ post)).
Proof.
  induction post as [|e post IH] using rev_ind.
  - by rewrite app_nil_r.
  - rewrite app_assoc, atime_loop_snoc. etrans; [exact IH|].
    apply atime_step_dom, atime_loop_dom.
Qed.

Lemma atime_step_diagnostics st e :
  diagnostics_ok st → diagnostics_ok (atime_step st e).
Proof.
  intros [Hc Hok]. unfold atime_step.
  destruct (decide (bus_id e ∈ bus_line_blacklist st)) as [Hb|Hb]; [done|].
  assert (diagnostics_ok (set_time st e)) as Hset by done.
  destruct (bus_last_stop_arrival_time st !! bus_id e) as [t|]; [|done].
  destruct (String.leb t (a_time e)); [done|]. split; simpl.
  - intros l. rewrite filter_app, length_app, Hc, filter_cons, filter_nil. simpl.
    destruct (decide (bus_id e = l)) as [<-|Hne]; simpl.
    + rewrite bool_decide_eq_false_2 by done.
      rewrite bool_decide_eq_true_2 by set_solver. done.
    + rewrite Nat.add_0_r. apply (f_equal (λ b : bool, if b then 1 else 0)).
      apply bool_decide_ext. set_solver.
  - rewrite elem_of_app, list_elem_of_singleton. by intros [?|?].
Qed.

Lemma atime_loop_diagnostics db : diagnostics_ok (atime_loop db).
Proof.
  induction db as [|e db IH] using rev_ind.
  - split; [intros l; by vm_compute|].
    unfold atime_loop. simpl. rewrite list_elem_of_singleton. done.
  - rewrite atime_loop_snoc. by apply atime_step_diagnostics.
Qed.

(** A record of another line leaves the view of a line as it is, and the
    view of a line after one of its records depends on its view before
    only. *)
Lemma line_view_other l st e :
  bus_id e ≠ l → line_view l (atime_step st e) = line_view l st.
Proof.
  intros Hne. unfold atime_step.
  destruct (decide (bus_id e ∈ bus_line_blacklist st)); [done|].
  assert (line_view l (set_time st e) = line_view l st) as Hset.
  { unfold line_view. simpl. by rewrite lookup_insert_ne. }
  destruct (bus_last_stop_arrival_time st !! bus_id e) as [t|]; [|done].
  destruct (String.leb t (a_time e)); [done|].
  unfold line_view. simpl. f_equal; [f_equal|].
  - apply bool_decide_ext. set_solver.
  - rewrite filter_app, filter_cons, filter_nil. simpl.
    rewrite decide_False by done. by rewrite app_nil_r.
Qed.

Lemma line_view_same st st' e :
  line_view (bus_id e) st = line_view (bus_id e) st' →
  line_view (bus_id e) (atime_step st e) = line_view (bus_id e) (atime_step st' e).
Proof.
  unfold line_view. intros [= Hl Hb Hp]. unfold atime_step.
  assert (bus_id e ∈ bus_line_blacklist st ↔ bus_id e ∈ bus_line_blacklist st')
    as Hiff.
  { by rewrite <-(bool_decide_eq_true (bus_id e ∈ bus_line_blacklist st)), Hb,
      bool_decide_eq_true. }
  destruct (decide (bus_id e ∈ bus_line_blacklist st)) as [Hin|Hin].
  { rewrite decide_True by (by apply Hiff). by rewrite Hl, Hb, Hp. }
  rewrite decide_False by (by rewrite <-Hiff). rewrite <-Hl.
  assert ((bus_last_stop_arrival_time (set_time st e) !! bus_id e,
           bool_decide (bus_id e ∈ bus_line_blacklist (set_time st e)),
           filter (about (bus_id e)) (atime_printed (set_time st e))) =
          (bus_last_stop_arrival_time (set_time st' e) !! bus_id e,
           bool_decide (bus_id e ∈ bus_line_blacklist (set_time st' e)),
           filter (about (bus_id e)) (atime_printed (set_time st' e)))) as Hset.
  { simpl. by rewrite !lookup_insert_eq, Hb, Hp. }
  destruct (bus_last_stop_arrival_time st !! bus_id e) as [t|] eqn:Hst; [|done].
  destruct (String.leb t (a_time e)); [done|]. simpl.
  rewrite !filter_app, Hp, Hst, <-Hl. f_equal. f_equal.
  apply bool_decide_ext. set_solver.
Qed.

Lemma line_view_foldl l db st st' :
  line_view l st = line_view l st' →
  line_view l (foldl atime_step st db) =
  line_view l (foldl atime_step st' (line l db)).
Proof.
  unfold line. revert st st'. induction db as [|e db IH]; intros st st' Hv; simpl.
  - done.
  - rewrite filter_cons. destruct (decide (bus_id e = l)) as [<-|Hne]; simpl.
    + apply IH. by apply line_view_same.
    + apply IH. by rewrite line_view_other.
Qed.

Lemma check_atime_OK db :
  OK ∈ check_atime db ↔ bus_line_blacklist (atime_loop db) = ∅.
Proof.
  unfold check_atime. rewrite elem_of_app.
  destruct (atime_loop_diagnostics db) as [_ Hok].
  destruct (decide (bus_line_blacklist (atime_loop db) = ∅)) as [He|Hne].
  - split; [done|]. intros _. right. by apply list_elem_of_singleton.
  - split; [|done]. intros [Hin|Hin]; [done|]. by apply elem_of_nil in Hin.
Qed.

(** C4: in [check_atime], a record of a line not met before only sets the
    tracked time of the line: the blacklist and the output stay as they
    are; a later record of a line that is not blacklisted, with a time at
    or after the tracked time, does the same; one with a time strictly
    before the tracked time adds the line to the blacklist and appends to
    the output the one diagnostic with the line and the stop of that
    record, and leaves the tracked times alone; a record of a blacklisted
    line changes nothing.  The output has one diagnostic for a blacklisted
    line and none for another line; what is held and printed about a line
    is what the check holds and prints on the records of that line alone;
    and "OK" is printed exactly when the blacklist is empty after every
    prefix of the dataset. *)
Theorem check_atime_spec :
  (∀ pre e, bus_id e ∉ bus_ids pre →
     bus_last_stop_arrival_time (atime_loop (pre ++ [e])) =
       <[bus_id e := a_time e]> (bus_last_stop_arrival_time (atime_loop pre)) ∧
     bus_line_blacklist (atime_loop (pre ++ [e])) =
       bus_line_blacklist (atime_loop pre) ∧
     atime_printed (atime_loop (pre ++ [e])) = atime_printed (atime_loop pre)) ∧
  (∀ pre e t,
     bus_id e ∉ bus_line_blacklist (atime_loop pre) →
     bus_last_stop_arrival_time (atime_loop pre) !! bus_id e = Some t →
     String.leb t (a_time e) = true →
     bus_last_stop_arrival_time (atime_loop (pre ++ [e])) =
       <[bus_id e := a_time e]> (bus_last_stop_arrival_time (atime_loop pre)) ∧
     bus_line_blacklist (atime_loop (pre ++ [e])) =
       bus_line_blacklist (atime_loop pre) ∧
     atime_printed (atime_loop (pre ++ [e])) = atime_printed (atime_loop pre)) ∧
  (∀ pre e t,
     bus_id e ∉ bus_line_blacklist (atime_loop pre) →
     bus_last_stop_arrival_time (atime_loop pre) !! bus_id e = Some t →
     String.ltb (a_time e) t = true →
     bus_last_stop_arrival_time (atime_loop (pre ++ [e])) =
       bus_last_stop_arrival_time (atime_loop pre) ∧
     bus_line_blacklist (atime_loop (pre ++ [e])) =
       bus_line_blacklist (atime_loop pre) ∪ {[bus_id e]} ∧
     atime_printed (atime_loop (pre ++ [e])) =
       atime_printed (atime_loop pre) ++ [WrongTime (bus_id e) (stop_name e)]) ∧
  (∀ pre e, bus_id e ∈ bus_line_blacklist (atime_loop pre) →
     atime_loop (pre ++ [e]) = atime_loop pre) ∧
  (bus_last_stop_arrival_time (atime_loop []) = ∅ ∧
   bus_line_blacklist (atime_loop []) = ∅ ∧
   atime_printed (atime_loop []) = [ArrivalTimeTest]) ∧
  (∀ pre l, l ∈ bus_ids pre →
     ∃ t, bus_last_stop_arrival_time (atime_loop pre) !! l = Some t) ∧
  (∀ db l, length (filter (about l) (check_atime db)) =
           if bool_decide (l ∈ bus_line_blacklist (atime_loop db)) then 1 else 0) ∧
  (∀ db l, line_view l (atime_loop db) = line_view l (atime_loop (line l db))) ∧
  (∀ db, OK ∈ check_atime db ↔
         ∀ pre post, db = pre ++ post → bus_line_blacklist (atime_loop pre) = ∅).
Proof.
  split_and!.
  - intros pre e He. rewrite atime_loop_snoc, atime_step_first; [done| |].
    + by apply atime_loop_not_blacklisted.
    + by apply atime_loop_first.
  - intros pre e t Hb Hl Ht.
    by rewrite atime_loop_snoc, (atime_step_later _ e t).
  - intros pre e t Hb Hl Ht.
    by rewrite atime_loop_snoc, (atime_step_earlier _ e t).
  - intros pre e Hb. rewrite atime_loop_snoc. by apply atime_step_skipped.
  - done.
  - done.
  - done.
  - intros pre l Hl.
    destruct (bus_last_stop_arrival_time (atime_loop pre) !! l) as [t|] eqn:Ht.
    + by exists t.
    + by apply atime_loop_first in Ht.
  - intros db l. unfold check_atime. rewrite filter_app, length_app.
    rewrite (proj1 (atime_loop_diagnostics db) l).
    destruct (decide (bus_line_blacklist (atime_loop db) = ∅)); simpl; lia.
  - intros db l. unfold atime_loop. by apply line_view_foldl.
  - intros db. rewrite check_atime_OK. split.
    + intros He pre post ->. pose proof (atime_loop_mono pre post) as Hm.
      rewrite He in Hm. set_solver.
    + intros Hall. apply (Hall db []). by rewrite app_nil_r.
Qed.

Lemma check_atime_spec_witness :
  bus_last_stop_arrival_time
    (atime_loop
       ([stop 1 "A" "S" "08:00"; stop 2 "P" "S" "08:01"; stop 1 "B" "" "08:10";
         stop 2 "Q" "" "08:11"] ++ [stop 1 "C" "" "08:05"])) =
  bus_last_stop_arrival_time
    (atime_loop
       [stop 1 "A" "S" "08:00"; stop 2 "P" "S" "08:01"; stop 1 "B" "" "08:10";
        stop 2 "Q" "" "08:11"]) ∧
  bus_line_blacklist
    (atime_loop
       ([stop 1 "A" "S" "08:00"; stop 2 "P" "S" "08:01"; stop 1 "B" "" "08:10";
         stop 2 "Q" "" "08:11"] ++ [stop 1 "C" "" "08:05"])) =
  bus_line_blacklist
    (atime_loop
       [stop 1 "A" "S" "08:00"; stop 2 "P" "S" "08:01"; stop 1 "B" "" "08:10";
        stop 2 "Q" "" "08:11"]) ∪ {[bus_id (stop 1 "C" "" "08:05")]} ∧
  atime_printed
    (atime_loop
       ([stop 1 "A" "S" "08:00"; stop 2 "P" "S" "08:01"; stop 1 "B" "" "08:10";
         stop 2 "Q" "" "08:11"] ++ [stop 1 "C" "" "08:05"])) =
  atime_printed
    (atime_loop
       [stop 1 "A" "S" "08:00"; stop 2 "P" "S" "08:01"; stop 1 "B" "" "08:10";
        stop 2 "Q" "" "08:11"]) ++
  [WrongTime (bus_id (stop 1 "C" "" "08:05")) (stop_name (stop 1 "C" "" "08:05"))].
Proof.
  apply (proj1 (proj2 (proj2 check_atime_spec))
           [stop 1 "A" "S" "08:00"; stop 2 "P" "S" "08:01";
            stop 1 "B" "" "08:10"; stop 2 "Q" "" "08:11"]
           (stop 1 "C" "" "08:05") "08:10").
  - vm_compute. intros H. discriminate H.
  - reflexivity.
  - reflexivity.
Defined.

(** The chronology example: line 1 is blacklisted at its third record, one
    diagnostic is printed, for the stop of that record, and line 2 is not
    touched. *)
Example check_atime_chronology :
  check_atime chronology_db = [ArrivalTimeTest; WrongTime 1 "C"] ∧
  elements (bus_line_blacklist (atime_loop chronology_db)) = [1%Z] ∧
  bus_last_stop_arrival_time (atime_loop chronology_db) !! 1%Z = Some "08:10" ∧
  bus_last_stop_arrival_time (atime_loop chronology_db) !! 2%Z = Some "09:01" ∧
  check_atime (line 2 chronology_db) = [ArrivalTimeTest; OK].
Proof. by vm_compute. Qed.

(** ** [check_on_demand] *)

Lemma elem_of_foldl_on_demand_step db (s t f acc : gset string) n :
  n ∈ foldl (on_demand_step s t f) acc db ↔
  n ∈ acc ∨
  ∃ e, e ∈ db ∧ stop_type e = "O" ∧ stop_name e = n ∧ n ∈ s ∪ t ∪ f.
Proof.
  revert acc. induction db as [|e db IH]; intros acc; simpl.
  - split; [by left|]. intros [?|(e & Hin & _)]; [done|].
    by apply elem_of_nil in Hin.
  - rewrite IH. unfold on_demand_step.
    destruct (String.eqb_spec (stop_type e) "O") as [Ho|Ho]; simpl.
    + destruct (decide (stop_name e ∈ s ∪ t ∪ f)) as [Hin|Hin].
      * rewrite bool_decide_eq_true_2 by done.
        rewrite elem_of_union, elem_of_singleton. split.
        -- intros [[? | ->] | (e' & He' & ?)]; [by left| |].
           ++ right. exists e. split_and!; [apply elem_of_cons; by left|done..].
           ++ right. exists e'. split; [apply elem_of_cons; by right|done].
        -- intros [?|(e' & [-> | He']%elem_of_cons & Ho' & Hn & Hs)].
           ++ by left; left.
           ++ left; right. done.
           ++ right. by exists e'.
      * rewrite bool_decide_eq_false_2 by done. split.
        -- intros [?|(e' & He' & ?)]; [by left|].
           right. exists e'. split; [apply elem_of_cons; by right|done].
        -- intros [?|(e' & [-> | He']%elem_of_cons & Ho' & Hn & Hs)]; [by left| |].
           ++ destruct Hin. by rewrite Hn.
           ++ right. by exists e'.
    + split.
      * intros [?|(e' & He' & ?)]; [by left|].
        right. exists e'. split; [apply elem_of_cons; by right|done].
      * intros [?|(e' & [-> | He']%elem_of_cons & Ho' & Hn & Hs)]; [by left|done|].
        right. by exists e'.
Qed.

Lemma leb_trans s1 s2 s3 :
  String.leb s1 s2 = true → String.leb s2 s3 = true → String.leb s1 s3 = true.
Proof.
  unfold String.leb. revert s2 s3.
  induction s1 as [|c1 s1 IH]; intros [|c2 s2] [|c3 s3]; simpl; try done.
  unfold Ascii.compare.
  destruct (N.compare_spec (N_of_ascii c1) (N_of_ascii c2)) as [E12|L12|G12],
           (N.compare_spec (N_of_ascii c2) (N_of_ascii c3)) as [E23|L23|G23],
           (N.compare_spec (N_of_ascii c1) (N_of_ascii c3)) as [E13|L13|G13];
    try done; try lia.
  apply IH.
Qed.

#[global] Instance str_le_total : Total str_le.
Proof. intros s1 s2. apply String.leb_total. Qed.

#[global] Instance str_le_trans : Transitive str_le.
Proof. intros s1 s2 s3. apply leb_trans. Qed.

#[global] Instance str_le_antisym : AntiSymm eq str_le.
Proof. intros s1 s2. apply String.leb_antisym. Qed.

(** C6: the set collected by [check_on_demand] holds exactly the names of
    the records with [stop_type] "O" whose name is in the union of the
    three sets; the check prints its header, then "OK" when the set is
    empty and the set as a sorted list otherwise: the list has the elements
    of the set, each once, in the order of the strings, and it is the only
    such list. *)
Theorem check_on_demand_spec db (start_stops transfer_stops finish_stops : gset string) :
  (∀ n, n ∈ incorrect_on_demand db start_stops transfer_stops finish_stops ↔
        ∃ e, e ∈ db ∧ stop_type e = "O" ∧ stop_name e = n ∧
             n ∈ start_stops ∪ transfer_stops ∪ finish_stops) ∧
  check_on_demand db start_stops transfer_stops finish_stops =
    OnDemandStopsTest ::
    (if decide (incorrect_on_demand db start_stops transfer_stops finish_stops = ∅)
     then [OK]
     else [WrongStopType
             (sorted (incorrect_on_demand db start_stops transfer_stops finish_stops))]) ∧
  (∀ X : gset string,
     StronglySorted str_le (sorted X) ∧ NoDup (sorted X) ∧
     (∀ n, n ∈ sorted X ↔ n ∈ X) ∧
     (∀ l, Sorted str_le l → l ≡ₚ elements X → l = sorted X)).
Proof.
  split_and!.
  - intros n. unfold incorrect_on_demand.
    rewrite elem_of_foldl_on_demand_step. split; [|by right].
    intros [Hn|?]; [|done]. by apply elem_of_empty in Hn.
  - done.
  - intros X. unfold sorted.
    pose proof (merge_sort_Permutation str_le (elements X)) as Hperm.
    split_and!.
    + apply StronglySorted_merge_sort; apply _.
    + rewrite Hperm. apply NoDup_elements.
    + intros n. by rewrite Hperm, elem_of_elements.
    + intros l Hl Hp. apply (Sorted_unique str_le); [done| |by rewrite Hperm].
      apply Sorted_merge_sort; apply _.
Qed.

(** The on-demand example: "Central" is an on-demand stop of two lines,
    hence a transfer stop, and is reported. *)
Example check_on_demand_central :
  main on_demand_db =
  Return [ SpecificationErrors "stop_name" 6;
           ArrivalTimeTest; OK;
           OnDemandStopsTest; WrongStopType ["Central"] ].
Proof. by vm_compute. Qed.


(** * Further properties *)

(** ** The matcher and the language of a pattern *)

Lemma append_nil_l s : "" +:+ s = s.
Proof. reflexivity. Qed.

Lemma append_cons c s1 s2 : String c s1 +:+ s2 = String c (s1 +:+ s2).
Proof. reflexivity. Qed.

Lemma append_nil_r s : s +:+ "" = s.
Proof. induction s as [|c s IH]; [done|]. by rewrite append_cons, IH. Qed.

Lemma append_assoc s1 s2 s3 : (s1 +:+ s2) +:+ s3 = s1 +:+ (s2 +:+ s3).
Proof. induction s1 as [|c s1 IH]; [done|]. by rewrite !append_cons, IH. Qed.

Lemma append_eq_nil s1 s2 : s1 +:+ s2 = "" → s1 = "" ∧ s2 = "".
Proof. destruct s1; [done|]. by rewrite append_cons. Qed.

Lemma append_eq_cons s1 s2 c s :
  s1 +:+ s2 = String c s →
  (s1 = "" ∧ s2 = String c s) ∨ ∃ s1', s1 = String c s1' ∧ s = s1' +:+ s2.
Proof.
  destruct s1 as [|c1 s1]; [by left|]. rewrite append_cons.
  intros [= -> <-]. right. by exists s1.
Qed.

Lemma nullable_lang r : Re.nullable r = true ↔ lang r "".
Proof.
  split.
  - induction r; simpl; intros Hn; try done.
    + constructor.
    + apply andb_true_iff in Hn as [H1 H2].
      rewrite <-(append_nil_l ""). constructor; auto.
    + apply orb_true_iff in Hn as [H1|H2];
        [apply lang_alt_l | apply lang_alt_r]; auto.
    + constructor.
  - remember "" as s eqn:Hs. induction 1; simpl; try done.
    + apply append_eq_nil in Hs as [-> ->].
      rewrite andb_true_iff. auto.
    + rewrite orb_true_iff. auto.
    + rewrite orb_true_iff. auto.
Qed.

Lemma lang_star_cons_inv r c s :
  lang (Re.Star r) (String c s) →
  ∃ s1 s2, s = s1 +:+ s2 ∧ lang r (String c s1) ∧ lang (Re.Star r) s2.
Proof.
  remember (Re.Star r) as r' eqn:Hr. remember (String c s) as s' eqn:Hs.
  intros Hl. revert Hr Hs.
  induction Hl as [| | | | | |r0 s1 s2 H1 _ H2 IH2]; intros Hr Hs; try done.
  injection Hr as ->.
  apply append_eq_cons in Hs as [[-> ->]|(s1' & -> & ->)].
  - by apply IH2.
  - by exists s1', s2.
Qed.

Lemma lang_seq_inv r1 r2 s :
  lang (Re.Seq r1 r2) s ↔ ∃ s1 s2, s = s1 +:+ s2 ∧ lang r1 s1 ∧ lang r2 s2.
Proof.
  split.
  - inversion 1; subst. eauto.
  - intros (s1 & s2 & -> & H1 & H2). by constructor.
Qed.

Lemma lang_alt_inv r1 r2 s : lang (Re.Alt r1 r2) s ↔ lang r1 s ∨ lang r2 s.
Proof.
  split.
  - inversion 1; subst; auto.
  - intros [?|?]; [by apply lang_alt_l | by apply lang_alt_r].
Qed.

Lemma lang_class_inv p s :
  lang (Re.Class p) s ↔ ∃ c, s = String c "" ∧ p c = true.
Proof.
  split.
  - inversion 1; subst. eauto.
  - intros (c & -> & Hp). by constructor.
Qed.

Lemma lang_eps_inv s : lang Re.Eps s ↔ s = "".
Proof. split; [by inversion 1 | intros ->; constructor]. Qed.

Lemma lang_void_inv s : ¬ lang Re.Void s.
Proof. inversion 1. Qed.

Lemma deriv_lang c r s : lang (Re.deriv c r) s ↔ lang r (String c s).
Proof.
  revert s. induction r as [| |p|r1 IH1 r2 IH2|r1 IH1 r2 IH2|r IH]; intros s; simpl.
  - split; intros H; by apply lang_void_inv in H.
  - split; [intros H; by apply lang_void_inv in H|].
    by intros H%lang_eps_inv.
  - rewrite lang_class_inv. destruct (p c) eqn:Hp; simpl.
    + rewrite lang_eps_inv. split.
      * intros ->. by exists c.
      * by intros (c' & [= <- <-] & _).
    + split; [intros H; by apply lang_void_inv in H|].
      intros (c' & [= <- _] & Hp'). congruence.
  - assert (lang (Re.Seq (Re.deriv c r1) r2) s ↔
            ∃ s1 s2, s = s1 +:+ s2 ∧ lang r1 (String c s1) ∧ lang r2 s2) as Hd.
    { rewrite lang_seq_inv. by setoid_rewrite IH1. }
    assert (lang (Re.Seq r1 r2) (String c s) ↔
            (lang r1 "" ∧ lang r2 (String c s)) ∨
            ∃ s1 s2, s = s1 +:+ s2 ∧ lang r1 (String c s1) ∧ lang r2 s2) as Hs.
    { rewrite lang_seq_inv. split.
      - intros (s1 & s2 & Heq & H1 & H2). symmetry in Heq.
        apply append_eq_cons in Heq as [[-> ->]|(s1' & -> & ->)]; [by left|].
        right. by exists s1', s2.
      - intros [[H1 H2]|(s1 & s2 & -> & H1 & H2)].
        + by exists "", (String c s).
        + by exists (String c s1), s2. }
    rewrite Hs. destruct (Re.nullable r1) eqn:Hn.
    + rewrite lang_alt_inv, Hd, IH2. apply nullable_lang in Hn. tauto.
    + rewrite Hd. split; [by right|]. intros [[H1 _]|?]; [|done].
      apply nullable_lang in H1. congruence.
  - by rewrite !lang_alt_inv, IH1, IH2.
  - rewrite lang_seq_inv. setoid_rewrite IH. split.
    + intros (s1 & s2 & -> & H1 & H2). rewrite <-append_cons. by constructor.
    + by intros ?%lang_star_cons_inv.
Qed.

(** The derivative matcher decides the language of the pattern. *)
Lemma fullmatch_lang r s : Re.fullmatch r s = true ↔ lang r s.
Proof.
  revert r. induction s as [|c s IH]; intros r; simpl.
  - apply nullable_lang.
  - rewrite IH. apply deriv_lang.
Qed.

Lemma chomp_Some s s' : Re.chomp s = Some s' ↔ s = s' +:+ newline.
Proof.
  unfold newline. revert s'. induction s as [|c s IH]; intros s'.
  - simpl. split; [done|]. intros Heq. symmetry in Heq.
    by apply append_eq_nil in Heq as [_ ?].
  - destruct s as [|c2 s].
    + simpl. destruct (Ascii.eqb_spec c "010") as [->|Hne].
      * split; [by intros [= <-]|].
        destruct s' as [|a s']; [done|]. rewrite append_cons.
        intros [= _ Hs]. symmetry in Hs. by apply append_eq_nil in Hs as [_ ?].
      * split; [done|]. destruct s' as [|a s'].
        -- rewrite append_nil_l. by intros [= ->].
        -- rewrite append_cons. intros [= _ Hs]. symmetry in Hs.
           by apply append_eq_nil in Hs as [_ ?].
    + change (Re.chomp (String c (String c2 s)))
        with (String c <$> Re.chomp (String c2 s)).
      destruct (Re.chomp (String c2 s)) as [t|] eqn:Ht; simpl.
      * split.
        -- intros [= <-]. rewrite append_cons. f_equal. by apply IH.
        -- destruct s' as [|a s'].
           ++ rewrite append_nil_l. by intros [= _ ?].
           ++ rewrite append_cons. intros [= -> Hs].
              apply IH in Hs. congruence.
      * split; [done|]. destruct s' as [|a s'].
        -- rewrite append_nil_l. by intros [= _ ?].
        -- rewrite append_cons. intros [= -> Hs]. apply IH in Hs. congruence.
Qed.

(** What [bool(re.match(p, s))] decides for an anchored pattern: [s], or
    [s] without a final newline, is in the language of the pattern. *)
Lemma match_anchored_lang r s :
  Re.match_anchored r s = true ↔
  lang r s ∨ ∃ s', s = s' +:+ newline ∧ lang r s'.
Proof.
  unfold Re.match_anchored. rewrite orb_true_iff, fullmatch_lang.
  destruct (Re.chomp s) as [t|] eqn:Ht.
  - rewrite fullmatch_lang. split.
    + intros [?|?]; [by left|]. right. exists t. by apply chomp_Some in Ht.
    + intros [?|(s' & Hs & Hl)]; [by left|]. right.
      apply chomp_Some in Hs. congruence.
  - split; [intros [?|?]; [by left|done]|].
    intros [?|(s' & Hs & Hl)]; [by left|].
    apply chomp_Some in Hs. congruence.
Qed.

Lemma lang_lit w s : lang (Re.Lit w) s ↔ s = w.
Proof.
  revert s. induction w as [|c w IH]; intros s; simpl.
  - apply lang_eps_inv.
  - rewrite lang_seq_inv. setoid_rewrite lang_class_inv. setoid_rewrite IH. split.
    + intros (s1 & s2 & -> & (c' & -> & Hc) & ->).
      apply Ascii.eqb_eq in Hc as ->. done.
    + intros ->. exists (String c ""), w. split; [done|]. split; [|done].
      exists c. split; [done|]. apply Ascii.eqb_refl.
Qed.

Lemma lang_star_class p s :
  lang (Re.Star (Re.Class p)) s ↔
  forallb p (String.list_ascii_of_string s) = true.
Proof.
  split.
  - remember (Re.Star (Re.Class p)) as r eqn:Hr. intros Hl. revert Hr.
    induction Hl as [| | | | | |r0 s1 s2 H1 _ H2 IH2]; intros Hr; try done.
    injection Hr as ->. apply lang_class_inv in H1 as (c & -> & Hc).
    rewrite append_cons, append_nil_l. simpl. by rewrite Hc, IH2.
  - induction s as [|c s IH]; simpl.
    + intros _. constructor.
    + intros [Hc Hs]%andb_true_iff.
      rewrite <-(append_nil_l s), <-append_cons.
      constructor; [by constructor | by apply IH].
Qed.

Lemma in_range_spec lo hi c :
  Re.in_range lo hi c = true ↔
  (N_of_ascii lo ≤ N_of_ascii c ∧ N_of_ascii c ≤ N_of_ascii hi)%N.
Proof. unfold Re.in_range. by rewrite andb_true_iff, !N.leb_le. Qed.

Lemma ascii_eqb_N a c : Ascii.eqb a c = true ↔ N_of_ascii c = N_of_ascii a.
Proof.
  rewrite Ascii.eqb_eq. split; [by intros -> |].
  intros Hn. by rewrite <-(ascii_N_embedding a), <-(ascii_N_embedding c), Hn.
Qed.

Lemma trailing_newline t : t ∈ [""; newline] ↔ t = "" ∨ t = newline.
Proof.
  rewrite elem_of_cons, list_elem_of_singleton. done.
Qed.

(** X1: the [stop_type] predicate holds exactly of the strings "", "S",
    "O" and "F", and of these followed by one newline, which [$] lets
    through; no other value passes. *)
Theorem stop_type_accepted x :
  field_ok "stop_type" x = true ↔
  ∃ s t, x = VStr (s +:+ t) ∧ s ∈ [""; "S"; "O"; "F"] ∧ t ∈ [""; newline].
Proof.
  change (field_ok "stop_type" x) with (is_str_matching stop_type_template x).
  assert (∀ s, lang stop_type_template s ↔ s ∈ [""; "S"; "O"; "F"]) as Hlang.
  { intros s. unfold stop_type_template, Re.Opt.
    rewrite lang_alt_inv, lang_class_inv, lang_eps_inv.
    rewrite !elem_of_cons, elem_of_nil. split.
    - intros [(c & -> & Hc)| ->]; [|by left].
      unfold Re.one_of in Hc. simpl in Hc.
      rewrite !orb_true_iff, !Ascii.eqb_eq in Hc.
      destruct Hc as [-> |[-> |[-> |Hf]]]; [auto 10..|done].
    - intros [-> |[-> |[-> |[-> |[]]]]]; [by right|left..]; by eexists. }
  destruct x as [n|b|s| |]; simpl;
    try (split; [done | by intros (? & ? & ? & _)]).
  rewrite match_anchored_lang. setoid_rewrite Hlang. split.
  - intros [Hs|(s' & -> & Hs)].
    + exists s, "". rewrite append_nil_r. split_and!; [done..|].
      apply trailing_newline. by left.
    + exists s', newline. split_and!; [done..|]. apply trailing_newline. by right.
  - intros (s0 & t & [= ->] & Hs & [-> | ->]%trailing_newline).
    + left. by rewrite append_nil_r.
    + right. by exists s0.
Qed.

Lemma lang_class_pair p q s :
  lang (Re.Seq (Re.Class p) (Re.Class q)) s ↔
  ∃ c1 c2, s = String c1 (String c2 "") ∧ p c1 = true ∧ q c2 = true.
Proof.
  rewrite lang_seq_inv. split.
  - intros (s1 & s2 & -> & (c1 & -> & H1)%lang_class_inv
            & (c2 & -> & H2)%lang_class_inv).
    by exists c1, c2.
  - intros (c1 & c2 & -> & H1 & H2).
    exists (String c1 ""), (String c2 ""). split; [done|].
    split; by constructor.
Qed.

Lemma lang_lit_seq w r s :
  lang (Re.Seq (Re.Lit w) r) s ↔ ∃ s2, s = w +:+ s2 ∧ lang r s2.
Proof.
  rewrite lang_seq_inv. split.
  - intros (s1 & s2 & -> & ->%lang_lit & H2). by exists s2.
  - intros (s2 & -> & H2). exists w, s2. split; [done|]. split; [|done].
    by apply lang_lit.
Qed.

(** The hours of [a_time_template]: [[0-1]\d|2[0-3]]. *)
Lemma lang_hours s :
  lang (Re.Alt (Re.Seq (Re.Class (Re.in_range "0" "1")) (Re.Class Re.digit))
               (Re.Seq (Re.Lit "2") (Re.Class (Re.in_range "0" "3")))) s ↔
  ∃ h1 h2, s = String h1 (String h2 "") ∧
           Re.digit h1 = true ∧ Re.digit h2 = true ∧
           (10 * digit_value h1 + digit_value h2 ≤ 23)%N.
Proof.
  assert (∀ c1 c2,
    (Re.in_range "0" "1" c1 = true ∧ Re.digit c2 = true ∨
     c1 = "2"%char ∧ Re.in_range "0" "3" c2 = true) ↔
    Re.digit c1 = true ∧ Re.digit c2 = true ∧
    (10 * digit_value c1 + digit_value c2 ≤ 23)%N) as Hhour.
  { intros c1 c2. unfold Re.digit, digit_value.
    rewrite <-(Ascii.eqb_eq c1 "2"), !in_range_spec, ascii_eqb_N.
    simpl. lia. }
  rewrite lang_alt_inv, lang_class_pair, lang_lit_seq. split.
  - intros [(c1 & c2 & -> & H1 & H2)|(s2 & -> & (c2 & -> & H2)%lang_class_inv)].
    + exists c1, c2. split; [done|]. apply Hhour. by left.
    + exists "2"%char, c2. split; [done|]. apply Hhour. by right.
  - intros (h1 & h2 & -> & [[H1 H2]|[-> H2]]%Hhour).
    + left. by exists h1, h2.
    + right. exists (String h2 ""). split; [done|]. by constructor.
Qed.

(** The minutes of [a_time_template]: [[0-5]\d|60]. *)
Lemma lang_minutes s :
  lang (Re.Alt (Re.Seq (Re.Class (Re.in_range "0" "5")) (Re.Class Re.digit))
               (Re.Lit "60")) s ↔
  ∃ m1 m2, s = String m1 (String m2 "") ∧
           Re.digit m1 = true ∧ Re.digit m2 = true ∧
           (10 * digit_value m1 + digit_value m2 ≤ 60)%N.
Proof.
  assert (∀ c1 c2,
    (Re.in_range "0" "5" c1 = true ∧ Re.digit c2 = true ∨
     c1 = "6"%char ∧ c2 = "0"%char) ↔
    Re.digit c1 = true ∧ Re.digit c2 = true ∧
    (10 * digit_value c1 + digit_value c2 ≤ 60)%N) as Hmin.
  { intros c1 c2. unfold Re.digit, digit_value.
    rewrite <-(Ascii.eqb_eq c1 "6"), <-(Ascii.eqb_eq c2 "0"), !in_range_spec,
      !ascii_eqb_N.
    simpl. lia. }
  rewrite lang_alt_inv, lang_class_pair, lang_lit. split.
  - intros [(c1 & c2 & -> & H1 & H2)| ->].
    + exists c1, c2. split; [done|]. apply Hmin. by left.
    + exists "6"%char, "0"%char. split; [done|]. apply Hmin. by right.
  - intros (m1 & m2 & -> & [[H1 H2]|[-> ->]]%Hmin).
    + left. by exists m1, m2.
    + by right.
Qed.

Lemma lang_a_time_template s :
  lang a_time_template s ↔
  ∃ h1 h2 m1 m2,
    s = String h1 (String h2 (String ":" (String m1 (String m2 "")))) ∧
    Forall (λ c, Re.digit c = true) [h1; h2; m1; m2] ∧
    (10 * digit_value h1 + digit_value h2 ≤ 23)%N ∧
    (10 * digit_value m1 + digit_value m2 ≤ 60)%N.
Proof.
  unfold a_time_template. rewrite lang_seq_inv. split.
  - intros (s1 & s2 & -> & (h1 & h2 & -> & H1 & H2 & Hh)%lang_hours
            & (s3 & -> & (m1 & m2 & -> & H3 & H4 & Hm)%lang_minutes)%lang_lit_seq).
    exists h1, h2, m1, m2. split_and!; [done| |done|done]. by repeat constructor.
  - intros (h1 & h2 & m1 & m2 & -> & Hd & Hh & Hm).
    apply Forall_cons in Hd as [H1 Hd]. apply Forall_cons in Hd as [H2 Hd].
    apply Forall_cons in Hd as [H3 Hd]. apply Forall_cons in Hd as [H4 _].
    exists (String h1 (String h2 "")), (String ":" (String m1 (String m2 ""))).
    split_and!; [done| |].
    + apply lang_hours. by exists h1, h2.
    + apply lang_lit_seq. exists (String m1 (String m2 "")). split; [done|].
      apply lang_minutes. by exists m1, m2.
Qed.

(** X2: a value that the [a_time] predicate accepts is a string of five
    characters with a colon in the middle, followed by nothing or by one
    newline; and a string of two digits 0-9, a colon and two digits 0-9,
    followed by [t], is accepted exactly when the first pair is at most
    23, the second at most 60, and [t] is empty or one newline. *)
Theorem a_time_accepted :
  (∀ x, field_ok "a_time" x = true →
     ∃ h1 h2 m1 m2 t,
       x = VStr (String h1 (String h2 (String ":" (String m1 (String m2 t))))) ∧
       t ∈ [""; newline]) ∧
  (∀ h1 h2 m1 m2 t,
     Forall (λ c, (48 ≤ N_of_ascii c ≤ 57)%N) [h1; h2; m1; m2] →
     field_ok "a_time"
       (VStr (String h1 (String h2 (String ":" (String m1 (String m2 t)))))) = true ↔
     (10 * digit_value h1 + digit_value h2 ≤ 23)%N ∧
     (10 * digit_value m1 + digit_value m2 ≤ 60)%N ∧
     t ∈ [""; newline]).
Proof.
  assert (∀ s, Re.match_anchored a_time_template s = true ↔
    ∃ h1 h2 m1 m2 t,
      s = String h1 (String h2 (String ":" (String m1 (String m2 t)))) ∧
      Forall (λ c, Re.digit c = true) [h1; h2; m1; m2] ∧
      (10 * digit_value h1 + digit_value h2 ≤ 23)%N ∧
      (10 * digit_value m1 + digit_value m2 ≤ 60)%N ∧
      t ∈ [""; newline]) as Hmatch.
  { intros s. rewrite match_anchored_lang. setoid_rewrite lang_a_time_template.
    split.
    - intros [Hs|(s' & -> & Hs)];
        destruct Hs as (h1 & h2 & m1 & m2 & -> & Hd & Hh & Hm).
      + exists h1, h2, m1, m2, "". split_and!; [done..|].
        apply trailing_newline. by left.
      + exists h1, h2, m1, m2, newline. split_and!; [done..|].
        apply trailing_newline. by right.
    - intros (h1 & h2 & m1 & m2 & t & -> & Hd & Hh & Hm & Ht).
      apply trailing_newline in Ht as [-> | ->].
      + left. by exists h1, h2, m1, m2.
      + right.
        exists (String h1 (String h2 (String ":" (String m1 (String m2 ""))))).
        split; [done|]. by exists h1, h2, m1, m2. }
  split.
  - intros x Hx.
    change (field_ok "a_time" x) with (is_str_matching a_time_template x) in Hx.
    destruct x as [n|b|s| |]; try done. simpl in Hx.
    apply Hmatch in Hx as (h1 & h2 & m1 & m2 & t & -> & _ & _ & _ & Ht).
    by exists h1, h2, m1, m2, t.
  - intros h1 h2 m1 m2 t Hd.
    change (field_ok "a_time" (VStr ?s)) with (Re.match_anchored a_time_template s).
    rewrite Hmatch. split.
    + by intros (a1 & a2 & a3 & a4 & t' & [= <- <- <- <- <-] & _ & Hh & Hm & Ht).
    + intros (Hh & Hm & Ht). exists h1, h2, m1, m2, t. split_and!; [done| |done..].
      eapply Forall_impl; [exact Hd|]. intros c Hc. unfold Re.digit.
      by apply in_range_spec.
Qed.

Lemma a_time_accepted_witness :
  field_ok "a_time" (VStr (String "2" (String "3" (String ":" (String "6" (String "0" "")))))) = true ↔
  (10 * digit_value "2" + digit_value "3" ≤ 23)%N ∧
  (10 * digit_value "6" + digit_value "0" ≤ 60)%N ∧
  "" ∈ [""; newline].
Proof.
  apply (proj2 a_time_accepted "2"%char "3"%char "6"%char "0"%char "").
  repeat constructor; by vm_compute.
Defined.

Lemma lang_plus_class p s :
  lang (Re.Plus (Re.Class p)) s ↔
  s ≠ "" ∧ forallb p (String.list_ascii_of_string s) = true.
Proof.
  unfold Re.Plus. rewrite lang_seq_inv. split.
  - intros (s1 & s2 & -> & (c & -> & Hc)%lang_class_inv & Hs%lang_star_class).
    rewrite append_cons, append_nil_l. split; [done|]. simpl. by rewrite Hc.
  - intros [Hne Hall]. destruct s as [|c s]; [done|]. simpl in Hall.
    apply andb_true_iff in Hall as [Hc Hs].
    exists (String c ""), s. split; [done|].
    split; [by constructor | by apply lang_star_class].
Qed.

Lemma lang_stop_name_template s :
  lang stop_name_template s ↔
  ∃ c mid sp suf,
    s = String c (mid +:+ String sp suf) ∧
    Re.in_range "A" "Z" c = true ∧
    mid ≠ "" ∧ forallb Re.dot (String.list_ascii_of_string mid) = true ∧
    Re.space sp = true ∧
    suf ∈ ["Road"; "Avenue"; "Boulevard"; "Street"].
Proof.
  assert (∀ t, lang (Re.Alt (Re.Lit "Road")
                      (Re.Alt (Re.Lit "Avenue")
                         (Re.Alt (Re.Lit "Boulevard") (Re.Lit "Street")))) t ↔
               t ∈ ["Road"; "Avenue"; "Boulevard"; "Street"]) as Hsuf.
  { intros t. rewrite !lang_alt_inv, !lang_lit, !elem_of_cons, elem_of_nil. tauto. }
  unfold stop_name_template. rewrite lang_seq_inv. split.
  - intros (s1 & s2 & -> & (c & -> & Hc)%lang_class_inv & H2).
    apply lang_seq_inv in H2 as (mid & s3 & -> & [Hne Hmid]%lang_plus_class & H3).
    apply lang_seq_inv in H3 as (s4 & suf & -> & (sp & -> & Hsp)%lang_class_inv
                                 & Hs%Hsuf).
    by exists c, mid, sp, suf.
  - intros (c & mid & sp & suf & -> & Hc & Hne & Hmid & Hsp & Hs).
    exists (String c ""), (mid +:+ String sp suf). split; [done|].
    split; [by constructor|]. apply lang_seq_inv.
    exists mid, (String sp suf). split; [done|].
    split; [by apply lang_plus_class|]. apply lang_seq_inv.
    exists (String sp ""), suf. split; [done|].
    split; [by constructor | by apply Hsuf].
Qed.

(** X3: the [stop_name] predicate holds exactly of the strings made of a
    letter from A to Z, one or more characters none of which is a newline,
    a white-space character and one of "Road", "Avenue", "Boulevard",
    "Street", and of such a string followed by one newline. *)
Theorem stop_name_accepted x :
  field_ok "stop_name" x = true ↔
  ∃ c mid sp suf t,
    x = VStr (String c (mid +:+ String sp (suf +:+ t))) ∧
    (65 ≤ N_of_ascii c ≤ 90)%N ∧
    mid ≠ "" ∧ Forall (λ a, a ≠ "010"%char) (String.list_ascii_of_string mid) ∧
    Re.space sp = true ∧
    suf ∈ ["Road"; "Avenue"; "Boulevard"; "Street"] ∧
    t ∈ [""; newline].
Proof.
  change (field_ok "stop_name" x) with (is_str_matching stop_name_template x).
  assert (∀ mid, forallb Re.dot (String.list_ascii_of_string mid) = true ↔
                 Forall (λ a, a ≠ "010"%char) (String.list_ascii_of_string mid))
    as Hdot.
  { intros mid. rewrite forallb_forall, Forall_forall.
    setoid_rewrite <-list_elem_of_In. unfold Re.dot.
    setoid_rewrite negb_true_iff. by setoid_rewrite Ascii.eqb_neq. }
  assert (∀ c, Re.in_range "A" "Z" c = true ↔ (65 ≤ N_of_ascii c ≤ 90)%N) as Hcap.
  { intros c. by rewrite in_range_spec. }
  destruct x as [n|b|s| |]; simpl;
    try (split; [done | by intros (? & ? & ? & ? & ? & ? & _)]).
  rewrite match_anchored_lang. setoid_rewrite lang_stop_name_template. split.
  - intros [Hs|(s' & -> & Hs)];
      destruct Hs as (c & mid & sp & suf & -> & Hc & Hne & Hmid & Hsp & Hs).
    + exists c, mid, sp, suf, "". rewrite append_nil_r.
      split; [done|]. split; [by apply Hcap|].
      split_and!; [done|by apply Hdot|done|done|].
      apply trailing_newline. by left.
    + exists c, mid, sp, suf, newline.
      rewrite append_cons, append_assoc, append_cons.
      split; [done|]. split; [by apply Hcap|].
      split_and!; [done|by apply Hdot|done|done|].
      apply trailing_newline. by right.
  - intros (c & mid & sp & suf & t & [= ->] & Hc & Hne & Hmid & Hsp & Hs & Ht).
    apply trailing_newline in Ht as [-> | ->].
    + left. rewrite append_nil_r. exists c, mid, sp, suf.
      split; [done|]. split; [by apply Hcap|].
      split_and!; [done|by apply Hdot|done|done].
    + right. exists (String c (mid +:+ String sp suf)).
      split; [by rewrite append_cons, append_assoc, append_cons|].
      exists c, mid, sp, suf.
      split; [done|]. split; [by apply Hcap|].
      split_and!; [done|by apply Hdot|done|done].
Qed.

(** ** [check_db_fields]: the dict of counts, the report and the result *)

Lemma known_keys_spec key :
  is_Some (db_fields_specification key) ↔ key ∈ known_keys.
Proof.
  unfold db_fields_specification, known_keys.
  rewrite !elem_of_cons, elem_of_nil.
  destruct (String.eqb_spec key "bus_id") as [->|H1];
    [split; [intros _; auto 10 | intros _; by eexists]|].
  destruct (String.eqb_spec key "stop_id") as [->|H2];
    [split; [intros _; auto 10 | intros _; by eexists]|].
  destruct (String.eqb_spec key "stop_name") as [->|H3];
    [split; [intros _; auto 10 | intros _; by eexists]|].
  destruct (String.eqb_spec key "next_stop") as [->|H4];
    [split; [intros _; auto 10 | intros _; by eexists]|].
  destruct (String.eqb_spec key "stop_type") as [->|H5];
    [split; [intros _; auto 10 | intros _; by eexists]|].
  destruct (String.eqb_spec key "a_time") as [->|H6];
    [split; [intros _; auto 10 | intros _; by eexists]|].
  split; [by intros [? ?]|]. tauto.
Qed.

Lemma unknown_key_spec key :
  db_fields_specification key = None ↔ key ∉ known_keys.
Proof. by rewrite <-known_keys_spec, eq_None_not_Some. Qed.

Lemma is_Some_get_check_item key errors item :
  is_Some (get key (check_item errors item)) ↔
  is_Some (get key errors) ∨ (item.1 = key ∧ key ∈ known_keys).
Proof.
  destruct item as [k v]. unfold check_item. simpl.
  destruct (db_fields_specification k) as [valid|] eqn:Hk.
  - assert (k ∈ known_keys) as Hin by (apply known_keys_spec; by eexists).
    assert (is_Some (get key (setdefault k 0 errors)) ↔
            is_Some (get key errors) ∨ k = key ∧ key ∈ known_keys) as Hsd.
    { rewrite get_setdefault. destruct (get key errors) as [n|].
      - split; [left; by eexists | by eexists].
      - destruct (decide (k = key)) as [->|Hne].
        + split; [by right | by eexists].
        + split; [by intros [? ?] | intros [[? ?]|[? _]]; done]. }
    destruct (valid v); simpl; [done|].
    rewrite get_alter_at. rewrite <-Hsd.
    destruct (decide (k = key)); [|done]. by rewrite fmap_is_Some.
  - apply unknown_key_spec in Hk. split; [by left|].
    intros [?|[-> ?]]; done.
Qed.

Lemma is_Some_get_check_entry key e errors :
  is_Some (get key (check_entry errors e)) ↔
  is_Some (get key errors) ∨ (key ∈ keys e ∧ key ∈ known_keys).
Proof.
  unfold check_entry, keys. revert errors.
  induction e as [|item e IH]; intros errors; csimpl.
  - rewrite elem_of_nil. tauto.
  - rewrite IH, is_Some_get_check_item, elem_of_cons.
    split; [intros [[?|[<- ?]]|[? ?]]|intros [?|[[->|?] ?]]]; tauto.
Qed.

Lemma is_Some_get_foldl_check_entry key db errors :
  is_Some (get key (foldl check_entry errors db)) ↔
  is_Some (get key errors) ∨
  (key ∈ known_keys ∧ ∃ e, e ∈ db ∧ key ∈ keys e).
Proof.
  revert errors. induction db as [|e db IH]; intros errors; simpl.
  - split; [by left|]. intros [?|[_ (e & He & _)]]; [done|].
    by apply elem_of_nil in He.
  - rewrite IH, is_Some_get_check_entry. split.
    + intros [[?|[? ?]]|[? (e' & He' & ?)]].
      * by left.
      * right. split; [done|]. exists e. split; [apply elem_of_cons; by left|done].
      * right. split; [done|]. exists e'. split; [apply elem_of_cons; by right|done].
    + intros [?|[? (e' & [->|He']%elem_of_cons & ?)]].
      * by left; left.
      * by left; right.
      * right. split; [done|]. by exists e'.
Qed.

Lemma NoDup_keys_check_item errors item :
  NoDup (keys errors) → NoDup (keys (check_item errors item)).
Proof.
  intros Hnd. destruct item as [k v]. unfold check_item.
  destruct (db_fields_specification k) as [valid|]; [|done].
  destruct (valid v); simpl.
  - by apply NoDup_keys_setdefault.
  - rewrite keys_alter_at. by apply NoDup_keys_setdefault.
Qed.

Lemma NoDup_keys_count_errors db : NoDup (keys (count_errors db)).
Proof.
  unfold count_errors.
  assert (∀ errors : list (string * nat),
            NoDup (keys errors) → NoDup (keys (foldl check_entry errors db))) as H.
  { induction db as [|e db IH]; intros errors Hnd; simpl; [done|].
    apply IH. unfold check_entry. clear IH. revert errors Hnd.
    induction e as [|item e IHe]; intros errors Hnd; simpl; [done|].
    by apply IHe, NoDup_keys_check_item. }
  apply H. constructor.
Qed.

Lemma get_count_errors db key n :
  get key (count_errors db) = Some n ↔
  key ∈ known_keys ∧ (∃ e, e ∈ db ∧ key ∈ keys e) ∧ n = failures key db.
Proof.
  pose proof (count_errors_failures key db) as Hc. unfold count in Hc.
  pose proof (is_Some_get_foldl_check_entry key db []) as Hs.
  fold (count_errors db) in Hs. simpl in Hs.
  split.
  - intros Hg. rewrite Hg in Hc, Hs. simpl in Hc.
    destruct (proj1 Hs (mk_is_Some _ _ eq_refl)) as [[? [=]]|[? ?]]. done.
  - intros (Hk & He & ->). destruct (proj2 Hs (or_intror (conj Hk He))) as [m Hm].
    rewrite Hm in Hc. simpl in Hc. by rewrite Hm, Hc.
Qed.

(** X4: the dict [errors] has an entry for a key exactly when the key is
    one of the six of the specification and some record has it, and the
    count stored is the number of items of that key that fail its
    predicate; each key is stored once. *)
Theorem count_errors_get db key n :
  NoDup (keys (count_errors db)) ∧
  (get key (count_errors db) = Some n ↔
   key ∈ known_keys ∧ (∃ e, e ∈ db ∧ key ∈ keys e) ∧ n = failures key db).
Proof. split; [apply NoDup_keys_count_errors | apply get_count_errors]. Qed.

Lemma entry_failures_pos key e :
  0 < entry_failures key e → key ∈ keys e.
Proof.
  unfold entry_failures, keys. induction e as [|[k v] e IH]; csimpl; [lia|].
  rewrite elem_of_cons. unfold item_fails at 1. simpl.
  destruct (decide (k = key)) as [->|Hne]; [by left|].
  rewrite bool_decide_eq_false_2 by done. simpl. intros H. right. by apply IH.
Qed.

Lemma failures_pos key db :
  0 < failures key db → ∃ e, e ∈ db ∧ key ∈ keys e.
Proof.
  unfold failures. induction db as [|e db IH]; csimpl; [lia|].
  intros Hpos. destruct (decide (0 < entry_failures key e)) as [He|He].
  - exists e. split; [apply elem_of_cons; by left | by apply entry_failures_pos].
  - destruct IH as (e' & He' & Hk); [lia|].
    exists e'. split; [apply elem_of_cons; by right | done].
Qed.

Lemma elem_of_report_errors errors m :
  m ∈ report_errors errors ↔
  ∃ key n, (key, n) ∈ errors ∧ 0 < n ∧ m = SpecificationErrors key n.
Proof.
  unfold report_errors. rewrite list_elem_of_omap. split.
  - intros ([k v] & Hin & Hf). destruct (0 <? v)%nat eqn:Hv; [|done].
    injection Hf as <-. apply Nat.ltb_lt in Hv. by exists k, v.
  - intros (k & v & Hin & Hv & ->). exists (k, v). split; [done|].
    apply Nat.ltb_lt in Hv. by rewrite Hv.
Qed.

Lemma NoDup_report_errors errors :
  NoDup (keys errors) → NoDup (report_errors errors).
Proof.
  unfold keys. induction errors as [|[k v] errors IH]; csimpl; [constructor|].
  rewrite NoDup_cons. intros [Hk Hnd]. fold (report_errors errors).
  destruct (0 <? v)%nat; [|by apply IH].
  apply NoDup_cons. split; [|by apply IH].
  intros (k' & n & Hin & _ & [= <- <-])%elem_of_report_errors.
  apply Hk, list_elem_of_fmap. by exists (k, v).
Qed.

(** X5: [check_db_fields] prints one line for each key of the
    specification with at least one failure, with the number of failures,
    and nothing else; no line is printed twice. *)
Theorem check_db_fields_report db m :
  NoDup (check_db_fields db).1 ∧
  (m ∈ (check_db_fields db).1 ↔
   ∃ key, key ∈ known_keys ∧ 0 < failures key db ∧
          m = SpecificationErrors key (failures key db)).
Proof.
  unfold check_db_fields. simpl.
  pose proof (NoDup_keys_count_errors db) as Hnd.
  split; [by apply NoDup_report_errors|].
  rewrite elem_of_report_errors. split.
  - intros (key & n & Hin & Hn & ->).
    apply elem_of_get, get_count_errors in Hin as (Hk & _ & ->); [|done].
    by exists key.
  - intros (key & Hk & Hpos & ->). exists key, (failures key db).
    split; [|done]. apply get_Some_elem_of, get_count_errors.
    split_and!; [done| |done]. by apply failures_pos.
Qed.

Lemma check_db_fields_true db :
  (check_db_fields db).2 = true ↔
  ∀ e key, e ∈ db → key ∈ keys e → key ∉ known_keys.
Proof.
  rewrite check_db_fields_returns, Forall_forall.
  setoid_rewrite Forall_forall. setoid_rewrite unknown_key_spec.
  unfold keys. split.
  - intros H e key He ([k v] & -> & Hin)%list_elem_of_fmap. by apply (H e He).
  - intros H e He [k v] Hin. apply (H e); [done|].
    apply list_elem_of_fmap. by exists (k, v).
Qed.

(** X6: [check_db_fields] returns [True] exactly when no record has any of
    the six keys of the specification, and then it prints nothing; as soon
    as one record has one of the keys it returns [False], whatever the
    values are. *)
Theorem check_db_fields_result db :
  ((check_db_fields db).2 = true ↔
   ∀ e key, e ∈ db → key ∈ keys e → key ∉ known_keys) ∧
  (check_db_fields db = ([], true) ↔
   ∀ e key, e ∈ db → key ∈ keys e → key ∉ known_keys).
Proof.
  split; [apply check_db_fields_true|].
  rewrite <-check_db_fields_true. split; [by intros ->|].
  unfold check_db_fields. simpl. rewrite negb_true_iff, truthy_false.
  by intros ->.
Qed.

Lemma check_entry_known_items e errors :
  check_entry errors (known_items e) = check_entry errors e.
Proof.
  unfold check_entry, known_items. revert errors.
  induction e as [|[k v] e IH]; intros errors; simpl; [done|].
  destruct (decide (k ∈ known_keys)) as [Hk|Hk].
  - rewrite bool_decide_eq_true_2 by done. simpl. apply IH.
  - rewrite bool_decide_eq_false_2 by done. rewrite IH.
    apply unknown_key_spec in Hk. by rewrite Hk.
Qed.

(** X7: items whose key is not in the specification are ignored: the
    dataset without them gives the same report and the same result. *)
Theorem check_db_fields_ignores_unknown db :
  check_db_fields (known_items <$> db) = check_db_fields db.
Proof.
  assert (∀ errors, foldl check_entry errors (known_items <$> db) =
                    foldl check_entry errors db) as H.
  { induction db as [|e db IH]; intros errors; csimpl; [done|].
    by rewrite check_entry_known_items, IH. }
  unfold check_db_fields, count_errors. by rewrite H.
Qed.

Lemma entry_failures_absent key e :
  (key ∉ keys e) → entry_failures key e = 0.
Proof.
  intros Hk. destruct (entry_failures key e) eqn:He; [done|].
  destruct Hk. apply entry_failures_pos. lia.
Qed.

Lemma entry_failures_le_1 key e :
  NoDup (keys e) → (entry_failures key e ≤ 1)%nat.
Proof.
  unfold keys. induction e as [|[k v] e IH]; csimpl; [unfold entry_failures; simpl; lia|].
  rewrite NoDup_cons. intros [Hk Hnd].
  change (entry_failures key ((k, v) :: e))
    with (length (if item_fails key (k, v)
                  then (k, v) :: List.filter (item_fails key) e
                  else List.filter (item_fails key) e)).
  fold (entry_failures key e).
  destruct (item_fails key (k, v)) eqn:Hf; [|by apply IH].
  unfold item_fails in Hf. simpl in Hf.
  apply andb_true_iff in Hf as [->%bool_decide_eq_true _].
  simpl. fold (entry_failures key e). by rewrite entry_failures_absent.
Qed.

(** X8: when every record has each key once, as the objects of a JSON
    file have, the number of failures of a field is at most the number of
    records, and so is every number printed. *)
Theorem failures_bound db key :
  (∀ e, e ∈ db → NoDup (keys e)) →
  (failures key db ≤ length db)%nat ∧
  ∀ n, SpecificationErrors key n ∈ (check_db_fields db).1 → (n ≤ length db)%nat.
Proof.
  intros Hnd.
  assert (failures key db ≤ length db)%nat as Hle.
  { unfold failures. induction db as [|e db IH]; csimpl; [lia|].
    assert (entry_failures key e ≤ 1)%nat as He.
    { apply entry_failures_le_1, Hnd, elem_of_cons. by left. }
    assert (sum_list (entry_failures key <$> db) ≤ length db)%nat as Hdb.
    { apply IH. intros e' He'. apply Hnd, elem_of_cons. by right. }
    lia. }
  split; [done|]. intros n Hin. unfold check_db_fields in Hin. simpl in Hin.
  apply elem_of_report_errors in Hin as (k & m & Hin & _ & [= <- <-]).
  apply elem_of_get, get_count_errors in Hin as (_ & _ & ->);
    [done | apply NoDup_keys_count_errors].
Qed.

Lemma failures_bound_witness :
  (failures "a_time"
    [to_entry valid_record; to_entry (stop 1 "A" "S" "8:00")] ≤ 2)%nat ∧
  ∀ n, SpecificationErrors "a_time" n ∈
         (check_db_fields
            [to_entry valid_record; to_entry (stop 1 "A" "S" "8:00")]).1 →
       (n ≤ 2)%nat.
Proof.
  apply (failures_bound
           [to_entry valid_record; to_entry (stop 1 "A" "S" "8:00")] "a_time").
  intros e He. apply elem_of_cons in He as [-> | He].
  - apply (bool_decide_unpack _). vm_compute. exact I.
  - apply list_elem_of_singleton in He as ->.
    apply (bool_decide_unpack _). vm_compute. exact I.
Defined.

Lemma entry_failures_cons key item e :
  entry_failures key (item :: e) =
  (if item_fails key item then 1 else 0) + entry_failures key e.
Proof. unfold entry_failures. simpl. by destruct (item_fails key item). Qed.

Lemma entry_failures_all_ok key e :
  forallb (λ item, field_ok item.1 item.2) e = true → entry_failures key e = 0.
Proof.
  induction e as [|[k v] e IH]; [done|]. simpl.
  intros [Hv He]%andb_true_iff. rewrite entry_failures_cons, (IH He).
  unfold item_fails. simpl. destruct (decide (k = key)) as [->|Hne].
  - by rewrite Hv, andb_false_r.
  - by rewrite bool_decide_eq_false_2.
Qed.

Lemma failures_all_ok key db :
  Forall (λ e, forallb (λ item, field_ok item.1 item.2) e = true) db →
  failures key db = 0.
Proof.
  unfold failures. induction 1 as [|e db He _ IH]; csimpl; [done|].
  by rewrite (entry_failures_all_ok key e He), IH.
Qed.

Lemma keys_set_field key x (e : entry) : keys (set_field key x e) = keys e.
Proof.
  unfold keys, set_field. induction e as [|[k v] e IH]; csimpl; [done|].
  rewrite IH. by destruct (decide (k = key)) as [->|].
Qed.

Lemma entry_failures_set_field_other k key x e :
  k ≠ key → entry_failures k (set_field key x e) = entry_failures k e.
Proof.
  intros Hne. induction e as [|[k0 v0] e IH]; [done|].
  change (set_field key x ((k0, v0) :: e))
    with ((if decide (k0 = key) then (key, x) else (k0, v0)) :: set_field key x e).
  rewrite !entry_failures_cons, IH. f_equal.
  unfold item_fails. destruct (decide (k0 = key)) as [->|Hk0]; simpl; [|done].
  by rewrite !bool_decide_eq_false_2.
Qed.

Lemma entry_failures_set_field key x e :
  NoDup (keys e) → key ∈ keys e → field_ok key x = false →
  entry_failures key (set_field key x e) = 1.
Proof.
  intros Hnd Hin Hx. induction e as [|[k0 v0] e IH].
  - by apply elem_of_nil in Hin.
  - change (set_field key x ((k0, v0) :: e))
      with ((if decide (k0 = key) then (key, x) else (k0, v0)) :: set_field key x e).
    unfold keys in Hnd, Hin. csimpl in *. apply NoDup_cons in Hnd as [Hk0 Hnd].
    rewrite entry_failures_cons. unfold item_fails.
    destruct (decide (k0 = key)) as [->|Hne]; simpl.
    + rewrite bool_decide_eq_true_2, Hx by done. simpl.
      rewrite entry_failures_absent; [done|]. by rewrite keys_set_field.
    + rewrite bool_decide_eq_false_2 by done. simpl. apply IH; [done|].
      apply elem_of_cons in Hin as [->|Hin]; done.
Qed.

Lemma report_errors_zero errors :
  (∀ k n, (k, n) ∈ errors → n = 0) → report_errors errors = [].
Proof.
  unfold report_errors. induction errors as [|[k v] errors IH]; intros Hz; [done|].
  csimpl. rewrite (Hz k v) by (apply elem_of_cons; by left). simpl.
  apply IH. intros k' n' Hin. apply (Hz k'), elem_of_cons. by right.
Qed.

Lemma report_errors_single errors key n :
  NoDup (keys errors) → (key, n) ∈ errors → 0 < n →
  (∀ k m, (k, m) ∈ errors → k ≠ key → m = 0) →
  report_errors errors = [SpecificationErrors key n].
Proof.
  unfold keys. induction errors as [|[k v] errors IH]; intros Hnd Hin Hn Hz.
  - by apply elem_of_nil in Hin.
  - csimpl in Hnd. apply NoDup_cons in Hnd as [Hk Hnd].
    unfold report_errors. csimpl. fold (report_errors errors).
    apply elem_of_cons in Hin as [[= <- <-]|Hin].
    + apply Nat.ltb_lt in Hn. rewrite Hn. f_equal.
      apply report_errors_zero. intros k' m Hin'.
      apply (Hz k'); [apply elem_of_cons; by right|].
      intros ->. apply Hk, list_elem_of_fmap. by exists (key, m).
    + assert (k ≠ key) as Hne.
      { intros ->. apply Hk, list_elem_of_fmap. by exists (key, n). }
      rewrite (Hz k v) by (done || apply elem_of_cons; by left). simpl.
      apply IH; [done..|]. intros k' m Hin'. apply Hz, elem_of_cons. by right.
Qed.

(** X9: in a dataset where every field of every record satisfies its
    predicate, giving one field of one record a value that fails the
    predicate makes the count of that field 1 and leaves the other counts
    at 0: the report is the one line for that field, and the result is
    [False]. *)
Theorem check_db_fields_one_invalid db1 e db2 key x :
  Forall (λ e, forallb (λ item, field_ok item.1 item.2) e = true)
         (db1 ++ e :: db2) →
  NoDup (keys e) → key ∈ keys e → field_ok key x = false →
  failures key (db1 ++ set_field key x e :: db2) = 1 ∧
  (∀ k, k ≠ key → failures k (db1 ++ set_field key x e :: db2) = 0) ∧
  check_db_fields (db1 ++ set_field key x e :: db2) =
    ([SpecificationErrors key 1], false).
Proof.
  intros Hall Hnd Hin Hx.
  apply Forall_app in Hall as [H1 Hall]. apply Forall_cons in Hall as [He H2].
  assert (∀ k, failures k (db1 ++ set_field key x e :: db2) =
               entry_failures k (set_field key x e)) as Hf.
  { intros k. rewrite failures_app, (failures_all_ok k db1 H1).
    unfold failures at 1. csimpl. fold (failures k db2).
    rewrite (failures_all_ok k db2 H2). lia. }
  assert (failures key (db1 ++ set_field key x e :: db2) = 1) as Hkey.
  { rewrite Hf. by apply entry_failures_set_field. }
  assert (∀ k, k ≠ key → failures k (db1 ++ set_field key x e :: db2) = 0) as Hother.
  { intros k Hne. rewrite Hf, entry_failures_set_field_other by done.
    by apply entry_failures_all_ok. }
  split_and!; [done|done|].
  assert (key ∈ known_keys) as Hknown.
  { apply known_keys_spec. unfold field_ok in Hx.
    destruct (db_fields_specification key); [by eexists|done]. }
  assert (get key (count_errors (db1 ++ set_field key x e :: db2)) = Some 1)
    as Hget.
  { apply get_count_errors. split_and!; [done| |done].
    exists (set_field key x e). split; [|by rewrite keys_set_field].
    apply elem_of_app. right. apply elem_of_cons. by left. }
  unfold check_db_fields. f_equal.
  - apply report_errors_single.
    + apply NoDup_keys_count_errors.
    + by apply get_Some_elem_of.
    + lia.
    + intros k m Hkm Hne.
      apply elem_of_get, get_count_errors in Hkm as (_ & _ & ->);
        [by apply Hother | apply NoDup_keys_count_errors].
  - destruct (count_errors _); [done|done].
Qed.

Lemma check_db_fields_one_invalid_witness :
  failures "a_time" ([] ++ set_field "a_time" (VStr "24:00") (to_entry valid_record) :: []) = 1 ∧
  (∀ k, k ≠ "a_time" →
     failures k ([] ++ set_field "a_time" (VStr "24:00") (to_entry valid_record) :: []) = 0) ∧
  check_db_fields ([] ++ set_field "a_time" (VStr "24:00") (to_entry valid_record) :: []) =
    ([SpecificationErrors "a_time" 1], false).
Proof.
  apply (check_db_fields_one_invalid [] (to_entry valid_record) [] "a_time"
           (VStr "24:00")).
  - constructor; [reflexivity | constructor].
  - apply (bool_decide_unpack _). vm_compute. exact I.
  - apply (bool_decide_unpack _). vm_compute. exact I.
  - reflexivity.
Defined.

(** ** [bus_lines_and_stops]: when it returns and what it returns *)

Lemma line_app l db1 db2 : line l (db1 ++ db2) = line l db1 ++ line l db2.
Proof. unfold line. apply filter_app. Qed.

Lemma starts_app l db1 db2 : starts l (db1 ++ db2) = starts l db1 + starts l db2.
Proof. unfold starts. by rewrite line_app, filter_app, length_app. Qed.

Lemma finals_app l db1 db2 : finals l (db1 ++ db2) = finals l db1 + finals l db2.
Proof. unfold finals. by rewrite line_app, filter_app, length_app. Qed.

Lemma elem_of_line l db e : e ∈ line l db ↔ e ∈ db ∧ bus_id e = l.
Proof. unfold line. rewrite list_elem_of_filter. tauto. Qed.

Lemma elem_of_bus_ids l db : l ∈ bus_ids db ↔ ∃ e, e ∈ db ∧ bus_id e = l.
Proof.
  unfold bus_ids. rewrite list_elem_of_fmap. split.
  - intros (e & -> & He). by exists e.
  - intros (e & He & <-). by exists e.
Qed.

(** The dict after all the records are classified: a line of the dataset
    has the topology of its records. *)
Lemma get_foldl_classify_nil l db :
  get l (foldl classify [] db) =
  if decide (l ∈ bus_ids db) then Some (add_stops new_line (line l db)) else None.
Proof.
  rewrite get_foldl_classify. simpl.
  destruct (decide (l ∈ bus_ids db)) as [Hl|Hl].
  - rewrite decide_False; [done|]. by rewrite line_nil; intros [].
  - rewrite decide_True; [done|]. by apply line_nil.
Qed.

Lemma counts_add_stops_new l db :
  start_count (add_stops new_line (line l db)) = starts l db ∧
  final_count (add_stops new_line (line l db)) = finals l db.
Proof. by rewrite start_count_add_stops, final_count_add_stops. Qed.

(** When the loop breaks, some line of the dataset has two "S" records or
    two "F" records. *)
Lemma broke_counts db :
  broke [] db = true → ∃ l, l ∈ bus_ids db ∧ (1 < starts l db ∨ 1 < finals l db).
Proof.
  intros (pre & e & post & -> & Hpre & Ho)%broke_split.
  rewrite scan_no_break in Ho by done.
  change (classify (foldl classify [] pre) e)
    with (foldl classify (foldl classify [] pre) [e]) in Ho.
  rewrite <-foldl_app in Ho. unfold over_limit in Ho.
  rewrite get_foldl_classify_nil in Ho.
  destruct (decide (bus_id e ∈ bus_ids (pre ++ [e]))) as [Hin|Hin]; [|done].
  apply orb_true_iff in Ho. rewrite !Nat.ltb_lt in Ho.
  destruct (counts_add_stops_new (bus_id e) (pre ++ [e])) as [Hs Hf].
  rewrite Hs, Hf in Ho. exists (bus_id e). split.
  - apply elem_of_bus_ids. exists e. split; [|done].
    apply elem_of_app. right. apply elem_of_cons. by left.
  - change (pre ++ e :: post) with (pre ++ [e] ++ post).
    rewrite app_assoc, starts_app, finals_app. lia.
Qed.

Lemma keys_foldl_classify bus_lines db l :
  l ∈ keys (foldl classify bus_lines db) ↔ l ∈ keys bus_lines ∨ l ∈ bus_ids db.
Proof.
  revert bus_lines. induction db as [|e db IH]; intros bus_lines; csimpl.
  - rewrite elem_of_nil. tauto.
  - rewrite IH, keys_classify, elem_of_cons.
    destruct (decide (bus_id e ∈ keys bus_lines)) as [Hin|Hin].
    + split; [tauto|]. intros [?|[->|?]]; tauto.
    + rewrite elem_of_app, list_elem_of_singleton. tauto.
Qed.

Lemma keys_scan_bus_ids db l : l ∈ keys (scan [] db) → l ∈ bus_ids db.
Proof.
  destruct (broke [] db) eqn:Hb.
  - apply broke_split in Hb as (pre & e & post & -> & Hpre & Ho).
    rewrite scan_app by done. simpl. rewrite Ho, scan_no_break by done.
    change (classify (foldl classify [] pre) e)
      with (foldl classify (foldl classify [] pre) [e]).
    rewrite <-foldl_app, keys_foldl_classify.
    intros [H|H]; [by apply elem_of_nil in H|].
    apply elem_of_bus_ids in H as (e' & He' & <-).
    apply elem_of_bus_ids. exists e'. split; [|done].
    apply elem_of_app in He' as [?|He']; apply elem_of_app; [by left|right].
    apply list_elem_of_singleton in He' as ->. apply elem_of_cons. by left.
  - rewrite scan_no_break, keys_foldl_classify by done.
    intros [H|H]; [by apply elem_of_nil in H|done].
Qed.

Lemma bus_lines_and_stops_cases db :
  ((∃ bus_lines, bus_lines_and_stops db = Return bus_lines) ↔
   ∀ l, l ∈ bus_ids db → starts l db = 1 ∧ finals l db = 1) ∧
  (∀ printed status, bus_lines_and_stops db = Exit printed status →
     status = 1%Z ∧ ∃ n, printed = [NoStartOrEndStop n] ∧ n ∈ bus_ids db).
Proof.
  split; [split|].
  - intros [bus_lines Hret] l Hl.
    destruct (bus_lines_and_stops_Return db bus_lines Hret) as (-> & Hb & Hall).
    pose proof (get_foldl_classify_nil l db) as Hg.
    rewrite decide_True in Hg by done. apply get_Some_elem_of in Hg.
    rewrite Forall_forall in Hall. specialize (Hall _ Hg). simpl in Hall.
    unfold one_start_one_final in Hall.
    rewrite andb_true_iff, !Nat.eqb_eq in Hall.
    by destruct (counts_add_stops_new l db) as [<- <-].
  - intros Hall.
    assert (broke [] db = false) as Hb.
    { destruct (broke [] db) eqn:Hb; [|done].
      apply broke_counts in Hb as (l & Hl & Hc).
      destruct (Hall l Hl). lia. }
    unfold bus_lines_and_stops, first_violation.
    destruct (List.find _ _) as [[n q]|] eqn:Hf; [|by eexists].
    apply find_some in Hf as [Hin Hq]. apply list_elem_of_In in Hin.
    simpl in Hq. apply negb_true_iff in Hq.
    assert (n ∈ bus_ids db) as Hn.
    { apply keys_scan_bus_ids, list_elem_of_fmap. by exists (n, q). }
    apply elem_of_get in Hin; [|apply NoDup_keys_scan; constructor].
    rewrite scan_no_break, get_foldl_classify_nil, decide_True in Hin by done.
    injection Hin as <-. destruct (counts_add_stops_new n db) as [Hs Hfc].
    destruct (Hall n Hn) as [H1 H2]. unfold one_start_one_final in Hq.
    rewrite Hs, Hfc, H1, H2 in Hq. done.
  - intros printed status. unfold bus_lines_and_stops, first_violation.
    destruct (List.find _ _) as [[n q]|] eqn:Hf; [|done].
    intros [= <- <-]. split; [done|]. exists n. split; [done|].
    apply find_some in Hf as [Hin _]. apply list_elem_of_In in Hin.
    apply keys_scan_bus_ids, list_elem_of_fmap. by exists (n, q).
Qed.

(** X10: [bus_lines_and_stops] returns exactly when every line of the
    dataset has one record with [stop_type] "S" and one with "F";
    otherwise it prints the one message, for a line of the dataset, and
    exits with status 1. *)
Theorem bus_lines_and_stops_returns_iff db :
  ((∃ bus_lines, bus_lines_and_stops db = Return bus_lines) ↔
   ∀ l, l ∈ bus_ids db → starts l db = 1 ∧ finals l db = 1) ∧
  (∀ printed status, bus_lines_and_stops db = Exit printed status →
     status = 1%Z ∧ ∃ n, printed = [NoStartOrEndStop n] ∧ n ∈ bus_ids db).
Proof. apply bus_lines_and_stops_cases. Qed.

Lemma bus_lines_and_stops_returns_iff_witness :
  1%Z = 1%Z ∧
  ∃ n, [NoStartOrEndStop 1] = [NoStartOrEndStop n] ∧
       n ∈ bus_ids [stop 1 "A" "S" "08:00"; stop 1 "B" "S" "08:10"].
Proof.
  apply (proj2 (bus_lines_and_stops_returns_iff
                  [stop 1 "A" "S" "08:00"; stop 1 "B" "S" "08:10"])
           [NoStartOrEndStop 1] 1%Z).
  reflexivity.
Defined.

Lemma keys_foldl_classify_order bus_lines db :
  keys (foldl classify bus_lines db) =
  keys bus_lines ++
  filter (λ l, l ∉ keys bus_lines) (first_occurrences (bus_ids db)).
Proof.
  revert bus_lines. induction db as [|e db IH]; intros bus_lines; csimpl.
  - by rewrite filter_nil, app_nil_r.
  - rewrite IH, keys_classify, filter_cons, list_filter_filter.
    destruct (decide (bus_id e ∈ keys bus_lines)) as [Hin|Hin].
    + rewrite decide_False by (by intros []). f_equal.
      apply list_filter_iff. intros l. split; [|tauto].
      intros Hl. split; [done|]. by intros ->.
    + rewrite decide_True by done. rewrite <-app_assoc. f_equal. simpl. f_equal.
      apply list_filter_iff. intros l.
      rewrite elem_of_app, list_elem_of_singleton. tauto.
Qed.

Lemma filter_all {A} (P : A → Prop) `{∀ x, Decision (P x)} (l : list A) :
  (∀ x, P x) → filter P l = l.
Proof.
  intros HP. induction l as [|x l IH]; [done|].
  by rewrite filter_cons_True, IH.
Qed.

(** X11: the lines of the dict returned are the lines of the dataset, each
    once, in the order in which the dataset first mentions them. *)
Theorem bus_lines_order db bus_lines :
  bus_lines_and_stops db = Return bus_lines →
  keys bus_lines = first_occurrences (bus_ids db) ∧
  NoDup (keys bus_lines) ∧
  ∀ l, l ∈ keys bus_lines ↔ l ∈ bus_ids db.
Proof.
  intros Hret.
  destruct (bus_lines_and_stops_Return db bus_lines Hret) as (-> & Hb & _).
  split_and!.
  - rewrite keys_foldl_classify_order. simpl.
    apply filter_all. intros l. apply not_elem_of_nil.
  - rewrite <-scan_no_break by done. apply NoDup_keys_scan. constructor.
  - intros l. rewrite keys_foldl_classify. split; [|by right].
    intros [H|H]; [by apply elem_of_nil in H|done].
Qed.

Lemma bus_lines_order_witness :
  keys (scan [] central_db) = first_occurrences (bus_ids central_db) ∧
  NoDup (keys (scan [] central_db)) ∧
  ∀ l, l ∈ keys (scan [] central_db) ↔ l ∈ bus_ids central_db.
Proof. apply (bus_lines_order central_db (scan [] central_db)). reflexivity. Defined.

Lemma names_add_stops p rs :
  start_stop_names (add_stops p rs) =
    start_stop_names p ∪ names (filter (λ e, stop_type e = "S") rs) ∧
  final_stop_names (add_stops p rs) =
    final_stop_names p ∪ names (filter (λ e, stop_type e = "F") rs) ∧
  other_stop_names (add_stops p rs) =
    other_stop_names p ∪
    names (filter (λ e, stop_type e ≠ "S" ∧ stop_type e ≠ "F") rs).
Proof.
  unfold add_stops, names. revert p.
  induction rs as [|e rs IH]; intros p; simpl.
  - split_and!; set_solver.
  - destruct (IH (add_stop e p)) as (-> & -> & ->). rewrite !filter_cons.
    unfold add_stop.
    destruct (String.eqb_spec (stop_type e) "S") as [Hs|Hs].
    + rewrite (decide_True (P := stop_type e = "S")) by done.
      rewrite (decide_False (P := stop_type e = "F")) by (by rewrite Hs).
      rewrite decide_False by (by intros []). simpl.
      split_and!; [set_solver|done|done].
    + rewrite (decide_False (P := stop_type e = "S")) by done.
      destruct (String.eqb_spec (stop_type e) "F") as [Hf|Hf].
      * rewrite decide_True by done. rewrite decide_False by (by intros []).
        simpl. split_and!; [done|set_solver|done].
      * rewrite decide_False by done. rewrite decide_True by done.
        simpl. split_and!; [done|done|set_solver].
Qed.

Lemma line_stops_add_stops_new rs :
  line_stops (add_stops new_line rs) = names rs.
Proof.
  unfold line_stops. destruct (names_add_stops new_line rs) as (-> & -> & ->).
  simpl. unfold names. apply set_eq. intros n.
  rewrite !elem_of_union, !elem_of_list_to_set, !list_elem_of_fmap.
  setoid_rewrite list_elem_of_filter. split.
  - intros [[[Hn|(e & -> & _ & He)]|[Hn|(e & -> & _ & He)]]|[Hn|(e & -> & _ & He)]];
      try (by apply elem_of_empty in Hn); by exists e.
  - intros (e & -> & He).
    destruct (decide (stop_type e = "S")) as [Hs|Hs];
      [left; left; right; by exists e|].
    destruct (decide (stop_type e = "F")) as [Hf|Hf];
      [left; right; right; by exists e|].
    right; right. by exists e.
Qed.

Lemma length_1_singleton {A} (l : list A) : length l = 1 → ∃ x, l = [x].
Proof. destruct l as [|x [|y l]]; try done. by exists x. Qed.

(** X12: in the dict returned, every line of the dataset has start count 1
    and final count 1, its start names are the one name of its "S" record,
    its final names the one name of its "F" record, and its other names
    are the names of its records that are neither. *)
Theorem bus_lines_topology db bus_lines l :
  bus_lines_and_stops db = Return bus_lines → l ∈ bus_ids db →
  ∃ p s f,
    get l bus_lines = Some p ∧
    start_count p = 1 ∧ final_count p = 1 ∧
    filter (λ e, stop_type e = "S") (line l db) = [s] ∧
    filter (λ e, stop_type e = "F") (line l db) = [f] ∧
    start_stop_names p = {[stop_name s]} ∧
    final_stop_names p = {[stop_name f]} ∧
    other_stop_names p =
      names (filter (λ e, stop_type e ≠ "S" ∧ stop_type e ≠ "F") (line l db)).
Proof.
  intros Hret Hl.
  destruct (bus_lines_and_stops_Return db bus_lines Hret) as (-> & Hb & Hall).
  pose proof (get_foldl_classify_nil l db) as Hg.
  rewrite decide_True in Hg by done.
  pose proof (get_Some_elem_of _ _ _ Hg) as Hin.
  rewrite Forall_forall in Hall. specialize (Hall _ Hin). simpl in Hall.
  unfold one_start_one_final in Hall. rewrite andb_true_iff, !Nat.eqb_eq in Hall.
  destruct Hall as [Hs Hf].
  destruct (counts_add_stops_new l db) as [Hs' Hf'].
  destruct (length_1_singleton (filter (λ e, stop_type e = "S") (line l db)))
    as [s Hfs]; [unfold starts in Hs'; congruence|].
  destruct (length_1_singleton (filter (λ e, stop_type e = "F") (line l db)))
    as [f Hff]; [unfold finals in Hf'; congruence|].
  destruct (names_add_stops new_line (line l db)) as (Hn1 & Hn2 & Hn3).
  exists (add_stops new_line (line l db)), s, f.
  split_and!; [done..| | |].
  - rewrite Hn1, Hfs. unfold names. simpl. set_solver.
  - rewrite Hn2, Hff. unfold names. simpl. set_solver.
  - rewrite Hn3. simpl. set_solver.
Qed.

Lemma bus_lines_topology_witness :
  ∃ p s f,
    get 1%Z (scan [] central_db) = Some p ∧
    start_count p = 1 ∧ final_count p = 1 ∧
    filter (λ e, stop_type e = "S") (line 1 central_db) = [s] ∧
    filter (λ e, stop_type e = "F") (line 1 central_db) = [f] ∧
    start_stop_names p = {[stop_name s]} ∧
    final_stop_names p = {[stop_name f]} ∧
    other_stop_names p =
      names (filter (λ e, stop_type e ≠ "S" ∧ stop_type e ≠ "F") (line 1 central_db)).
Proof.
  apply (bus_lines_topology central_db (scan [] central_db) 1%Z).
  - reflexivity.
  - apply elem_of_cons. by left.
Defined.

(** The three sets in terms of the records, when the topology check
    passes. *)
Lemma stops_of_records db start_stops transfer_stops finish_stops :
  check_start_final_transfer_stops db =
    Return (start_stops, transfer_stops, finish_stops) →
  (∀ n, n ∈ start_stops ↔
        ∃ e, e ∈ db ∧ stop_type e = "S" ∧ stop_name e = n) ∧
  (∀ n, n ∈ finish_stops ↔
        ∃ e, e ∈ db ∧ stop_type e = "F" ∧ stop_name e = n) ∧
  (∀ n, n ∈ transfer_stops ↔
        ∃ e1 e2, e1 ∈ db ∧ e2 ∈ db ∧ bus_id e1 ≠ bus_id e2 ∧
                 stop_name e1 = n ∧ stop_name e2 = n).
Proof.
  unfold check_start_final_transfer_stops.
  destruct (bus_lines_and_stops db) as [bus_lines|] eqn:Hret; [|done]. simpl.
  rewrite collect_stops_eq, collect_transfers_eq. intros [= <- <- <-].
  pose proof (NoDup_keys_bus_lines _ _ Hret) as Hnd.
  destruct (bus_lines_and_stops_Return db bus_lines Hret) as (Hbl & Hb & Hall).
  assert (∀ l p, get l bus_lines = Some p ↔
                 l ∈ bus_ids db ∧ p = add_stops new_line (line l db)) as Hget.
  { intros l p. rewrite Hbl, get_foldl_classify_nil.
    destruct (decide (l ∈ bus_ids db)); [|by split; [|intros []]].
    split; [by intros [= <-]|by intros [_ ->]]. }
  assert (∀ (P : StopRecord → Prop) `{∀ e, Decision (P e)} n,
    (∃ l p, get l bus_lines = Some p ∧ n ∈ names (filter P (line l db))) ↔
    ∃ e, e ∈ db ∧ P e ∧ stop_name e = n) as Hnames.
  { intros P HP n. unfold names. split.
    - intros (l & p & _ & Hn). apply elem_of_list_to_set in Hn.
      apply list_elem_of_fmap in Hn as (e & -> & He).
      apply list_elem_of_filter in He as [HPe He].
      apply elem_of_line in He as [He _]. by exists e.
    - intros (e & He & HPe & <-). exists (bus_id e), (add_stops new_line (line (bus_id e) db)).
      split.
      + apply Hget. split; [|done]. apply elem_of_bus_ids. by exists e.
      + apply elem_of_list_to_set, list_elem_of_fmap. exists e. split; [done|].
        apply list_elem_of_filter. split; [done|]. by apply elem_of_line. }
  split_and!.
  - intros n. rewrite elem_of_union_values by done.
    rewrite <-(Hnames (λ e, stop_type e = "S") _ n). split.
    + intros (l & p & Hg & Hn). exists l, p. split; [done|].
      apply Hget in Hg as [_ ->].
      destruct (names_add_stops new_line (line l db)) as (Hs & _ & _).
      rewrite Hs in Hn. set_solver.
    + intros (l & p & Hg & Hn). exists l, p. split; [done|].
      apply Hget in Hg as [_ ->].
      destruct (names_add_stops new_line (line l db)) as (Hs & _ & _).
      rewrite Hs. set_solver.
  - intros n. rewrite elem_of_union_values by done.
    rewrite <-(Hnames (λ e, stop_type e = "F") _ n). split.
    + intros (l & p & Hg & Hn). exists l, p. split; [done|].
      apply Hget in Hg as [_ ->].
      destruct (names_add_stops new_line (line l db)) as (_ & Hf & _).
      rewrite Hf in Hn. set_solver.
    + intros (l & p & Hg & Hn). exists l, p. split; [done|].
      apply Hget in Hg as [_ ->].
      destruct (names_add_stops new_line (line l db)) as (_ & Hf & _).
      rewrite Hf. set_solver.
  - intros n. rewrite (elem_of_transfer_stops db) by done. split.
    + intros (l1 & l2 & p1 & p2 & Hd & [_ ->]%Hget & [_ ->]%Hget & Hn).
      rewrite !line_stops_add_stops_new in Hn.
      apply elem_of_intersection in Hn as [H1 H2]. unfold names in H1, H2.
      apply elem_of_list_to_set, list_elem_of_fmap in H1 as (e1 & -> & [He1 <-]%elem_of_line).
      apply elem_of_list_to_set, list_elem_of_fmap in H2 as (e2 & Hn2 & [He2 <-]%elem_of_line).
      by exists e1, e2.
    + intros (e1 & e2 & He1 & He2 & Hd & <- & Hn).
      exists (bus_id e1), (bus_id e2), (add_stops new_line (line (bus_id e1) db)),
        (add_stops new_line (line (bus_id e2) db)). split; [done|].
      split; [apply Hget; split; [apply elem_of_bus_ids; by exists e1|done]|].
      split; [apply Hget; split; [apply elem_of_bus_ids; by exists e2|done]|].
      rewrite !line_stops_add_stops_new. apply elem_of_intersection.
      unfold names. split; apply elem_of_list_to_set, list_elem_of_fmap.
      * exists e1. split; [done|]. by apply elem_of_line.
      * exists e2. split; [done|]. by apply elem_of_line.
Qed.

(** X13: when [check_start_final_transfer_stops] returns, the start stops
    are the names of the "S" records, the finish stops the names of the "F"
    records, and the transfer stops the names that two records of
    different lines share. *)
Theorem transfer_stops_of_records db start_stops transfer_stops finish_stops :
  check_start_final_transfer_stops db =
    Return (start_stops, transfer_stops, finish_stops) →
  (∀ n, n ∈ start_stops ↔
        ∃ e, e ∈ db ∧ stop_type e = "S" ∧ stop_name e = n) ∧
  (∀ n, n ∈ finish_stops ↔
        ∃ e, e ∈ db ∧ stop_type e = "F" ∧ stop_name e = n) ∧
  (∀ n, n ∈ transfer_stops ↔
        ∃ e1 e2, e1 ∈ db ∧ e2 ∈ db ∧ bus_id e1 ≠ bus_id e2 ∧
                 stop_name e1 = n ∧ stop_name e2 = n).
Proof. apply stops_of_records. Qed.

Lemma transfer_stops_of_records_witness :
  (∀ n, n ∈ ⋃ (start_stop_names <$> values (scan [] central_db)) ↔
        ∃ e, e ∈ central_db ∧ stop_type e = "S" ∧ stop_name e = n) ∧
  (∀ n, n ∈ ⋃ (final_stop_names <$> values (scan [] central_db)) ↔
        ∃ e, e ∈ central_db ∧ stop_type e = "F" ∧ stop_name e = n) ∧
  (∀ n, n ∈ ⋃ ((λ uv, uv.1 ∩ uv.2) <$>
                 combinations2 (line_stops <$> values (scan [] central_db))) ↔
        ∃ e1 e2, e1 ∈ central_db ∧ e2 ∈ central_db ∧ bus_id e1 ≠ bus_id e2 ∧
                 stop_name e1 = n ∧ stop_name e2 = n).
Proof.
  apply (transfer_stops_of_records central_db).
  apply (check_start_final_transfer_stops_Return central_db (scan [] central_db)).
  reflexivity.
Defined.

(** ** [check_on_demand] and the script *)

(** X14: when [check_start_final_transfer_stops] returns its three sets,
    the names that [check_on_demand] collects with them are the names of
    the on-demand records that are also the name of an "S" or "F" record,
    or the name of two records of different lines. *)
Theorem on_demand_report_of_records db start_stops transfer_stops finish_stops :
  check_start_final_transfer_stops db =
    Return (start_stops, transfer_stops, finish_stops) →
  ∀ n, n ∈ incorrect_on_demand db start_stops transfer_stops finish_stops ↔
       (∃ e, e ∈ db ∧ stop_type e = "O" ∧ stop_name e = n) ∧
       ((∃ e, e ∈ db ∧ stop_name e = n ∧ (stop_type e = "S" ∨ stop_type e = "F")) ∨
        (∃ e1 e2, e1 ∈ db ∧ e2 ∈ db ∧ bus_id e1 ≠ bus_id e2 ∧
                  stop_name e1 = n ∧ stop_name e2 = n)).
Proof.
  intros (Hs & Hf & Ht)%stops_of_records n. unfold incorrect_on_demand.
  rewrite elem_of_foldl_on_demand_step. setoid_rewrite elem_of_union.
  setoid_rewrite elem_of_union. setoid_rewrite Hs. setoid_rewrite Hf.
  setoid_rewrite Ht. split.
  - intros [Hn|(e & He & Ho & <- & Hin)]; [by apply elem_of_empty in Hn|].
    split; [by exists e|].
    destruct Hin as [[(e' & ? & ? & ?)|?]|(e' & ? & ? & ?)].
    + left. exists e'. auto.
    + by right.
    + left. exists e'. auto.
  - intros [(e & He & Ho & <-) Hin]. right. exists e. split_and!; [done..|].
    destruct Hin as [(e' & ? & ? & [?|?])|?].
    + left; left. by exists e'.
    + right. by exists e'.
    + by left; right.
Qed.

Lemma on_demand_report_of_records_witness :
  "Central" ∈ incorrect_on_demand on_demand_db
      (⋃ (start_stop_names <$> values (scan [] on_demand_db)))
      (⋃ ((λ uv, uv.1 ∩ uv.2) <$>
            combinations2 (line_stops <$> values (scan [] on_demand_db))))
      (⋃ (final_stop_names <$> values (scan [] on_demand_db))) ↔
  (∃ e, e ∈ on_demand_db ∧ stop_type e = "O" ∧ stop_name e = "Central") ∧
  ((∃ e, e ∈ on_demand_db ∧ stop_name e = "Central" ∧
         (stop_type e = "S" ∨ stop_type e = "F")) ∨
   (∃ e1 e2, e1 ∈ on_demand_db ∧ e2 ∈ on_demand_db ∧ bus_id e1 ≠ bus_id e2 ∧
             stop_name e1 = "Central" ∧ stop_name e2 = "Central")).
Proof.
  apply (on_demand_report_of_records on_demand_db).
  apply (check_start_final_transfer_stops_Return on_demand_db (scan [] on_demand_db)).
  reflexivity.
Defined.

(** X15: [check_on_demand] prints "OK" exactly when no record with
    [stop_type] "O" has its name in one of the three sets; the order of the
    records and their repetitions do not matter to what it prints. *)
Theorem check_on_demand_OK db (start_stops transfer_stops finish_stops : gset string) :
  (check_on_demand db start_stops transfer_stops finish_stops =
     [OnDemandStopsTest; OK] ↔
   ∀ e, e ∈ db → stop_type e = "O" →
        stop_name e ∉ start_stops ∪ transfer_stops ∪ finish_stops) ∧
  (∀ db', (∀ e, e ∈ db ↔ e ∈ db') →
     check_on_demand db' start_stops transfer_stops finish_stops =
     check_on_demand db start_stops transfer_stops finish_stops).
Proof.
  split.
  - unfold check_on_demand.
    destruct (decide (incorrect_on_demand db start_stops transfer_stops
                        finish_stops = ∅)) as [He|Hne].
    + split; [|done]. intros _ e He' Ho Hin.
      assert (stop_name e ∈ incorrect_on_demand db start_stops transfer_stops
                finish_stops) as Hn.
      { unfold incorrect_on_demand. apply elem_of_foldl_on_demand_step.
        right. by exists e. }
      rewrite He in Hn. by apply elem_of_empty in Hn.
    + split; [done|]. intros Hall. destruct Hne. apply set_eq. intros n.
      unfold incorrect_on_demand. rewrite elem_of_foldl_on_demand_step. split.
      * intros [?|(e & He & Ho & <- & Hin)]; [done|]. by destruct (Hall e He Ho).
      * intros Hn. by apply elem_of_empty in Hn.
  - intros db' Hsame.
    assert (incorrect_on_demand db' start_stops transfer_stops finish_stops =
            incorrect_on_demand db start_stops transfer_stops finish_stops) as Heq.
    { apply set_eq. intros n. unfold incorrect_on_demand.
      rewrite !elem_of_foldl_on_demand_step.
      split; (intros [?|(e & He & ?)]; [by left|right; exists e; split; [|done]]);
        by apply Hsame. }
    unfold check_on_demand. by rewrite Heq.
Qed.

Lemma check_on_demand_OK_witness :
  check_on_demand
    [stop 2 "Central" "O" "09:10"; stop 1 "A" "S" "08:00"; stop 1 "A" "S" "08:00"]
    {["Central"]} ∅ ∅ =
  check_on_demand [stop 1 "A" "S" "08:00"; stop 2 "Central" "O" "09:10"]
    {["Central"]} ∅ ∅.
Proof.
  apply (proj2 (check_on_demand_OK
                  [stop 1 "A" "S" "08:00"; stop 2 "Central" "O" "09:10"]
                  {["Central"]} ∅ ∅)).
  intros e. rewrite !elem_of_cons, !elem_of_nil. tauto.
Defined.

(** X16: the script.  When the topology check fails, the run ends with
    status 1 after the field report and the message of the line, and
    neither the arrival-time block nor the on-demand block is printed;
    otherwise the run prints the field report, the arrival-time block and
    the on-demand block for the three sets, in this order. *)
Theorem main_outcome db :
  (∀ printed status, main db = Exit printed status →
     status = 1%Z ∧
     ¬ (∀ l, l ∈ bus_ids db → starts l db = 1 ∧ finals l db = 1) ∧
     ∃ n, n ∈ bus_ids db ∧
          printed = (check_db_fields (to_entry <$> db)).1 ++ [NoStartOrEndStop n]) ∧
  (∀ printed, main db = Return printed →
     (∀ l, l ∈ bus_ids db → starts l db = 1 ∧ finals l db = 1) ∧
     ∃ start_stops transfer_stops finish_stops,
       check_start_final_transfer_stops db =
         Return (start_stops, transfer_stops, finish_stops) ∧
       printed = (check_db_fields (to_entry <$> db)).1 ++ check_atime db ++
                 check_on_demand db start_stops transfer_stops finish_stops).
Proof.
  destruct (bus_lines_and_stops_cases db) as [Hiff Hexit].
  unfold main, check_start_final_transfer_stops.
  destruct (bus_lines_and_stops db) as [bus_lines|out st] eqn:Hret; simpl.
  - split; [intros printed status; by destruct (collect_stops _) as [[? ?] ?]|].
    intros printed. destruct (collect_stops (values bus_lines)) as [[s f] a].
    intros [= <-]. split; [apply Hiff; by eexists|]. by eexists _, _, _.
  - split; [|done]. intros printed status [= <- <-].
    destruct (Hexit out st eq_refl) as (-> & n & -> & Hn).
    split; [done|]. split; [|by exists n].
    intros Hall. apply Hiff in Hall as [bus_lines Hbl]. done.
Qed.

Lemma main_outcome_witness :
  (1%Z = 1%Z ∧
   ¬ (∀ l, l ∈ bus_ids [stop 1 "A" "S" "08:00"; stop 1 "B" "S" "08:10"] →
           starts l [stop 1 "A" "S" "08:00"; stop 1 "B" "S" "08:10"] = 1 ∧
           finals l [stop 1 "A" "S" "08:00"; stop 1 "B" "S" "08:10"] = 1) ∧
   ∃ n, n ∈ bus_ids [stop 1 "A" "S" "08:00"; stop 1 "B" "S" "08:10"] ∧
        [SpecificationErrors "stop_name" 2; NoStartOrEndStop 1] =
        (check_db_fields
           (to_entry <$> [stop 1 "A" "S" "08:00"; stop 1 "B" "S" "08:10"])).1 ++
        [NoStartOrEndStop n]) ∧
  ((∀ l, l ∈ bus_ids central_db →
         starts l central_db = 1 ∧ finals l central_db = 1) ∧
   ∃ start_stops transfer_stops finish_stops,
     check_start_final_transfer_stops central_db =
       Return (start_stops, transfer_stops, finish_stops) ∧
     [SpecificationErrors "stop_name" 5; ArrivalTimeTest; OK;
      OnDemandStopsTest; OK] =
     (check_db_fields (to_entry <$> central_db)).1 ++ check_atime central_db ++
     check_on_demand central_db start_stops transfer_stops finish_stops).
Proof.
  split.
  - apply (proj1 (main_outcome [stop 1 "A" "S" "08:00"; stop 1 "B" "S" "08:10"])).
    reflexivity.
  - apply (proj2 (main_outcome central_db)). reflexivity.
Defined.

(** ** [check_atime]: the order of the times of a line *)

Lemma Sorted_cons2 {A} (R : relation A) a b l :
  Sorted R (a :: b :: l) ↔ R a b ∧ Sorted R (b :: l).
Proof.
  split.
  - intros [Hs Hh]%Sorted_inv. by apply HdRel_inv in Hh.
  - intros [Hab Hs]. constructor; [done | by constructor].
Qed.

Lemma Sorted_1 {A} (R : relation A) a : Sorted R [a].
Proof. constructor; constructor. Qed.

Lemma first_descent_None t rs :
  first_descent t rs = None ↔ Sorted str_le (t :: (a_time <$> rs)).
Proof.
  revert t. induction rs as [|e rs IH]; intros t; csimpl.
  - split; [intros _; apply Sorted_1 | done].
  - rewrite Sorted_cons2. unfold str_le at 1.
    destruct (String.leb t (a_time e)).
    + rewrite IH. tauto.
    + split; [done|]. by intros [? _].
Qed.

Lemma first_descent_Some t rs e :
  first_descent t rs = Some e ↔
  ∃ rs1 rs2, rs = rs1 ++ e :: rs2 ∧
             Sorted str_le (t :: (a_time <$> rs1)) ∧
             ¬ Sorted str_le (t :: (a_time <$> rs1 ++ [e])).
Proof.
  revert t. induction rs as [|e0 rs IH]; intros t; csimpl.
  - split; [done|]. intros (rs1 & rs2 & Heq & _). by destruct rs1.
  - destruct (String.leb t (a_time e0)) eqn:Ht.
    + rewrite IH. split.
      * intros (rs1 & rs2 & -> & Hs & Hn). exists (e0 :: rs1), rs2.
        csimpl. rewrite !Sorted_cons2. unfold str_le at 1 3.
        split_and!; [done|done|done|]. by intros [_ ?].
      * intros (rs1 & rs2 & Heq & Hs & Hn). destruct rs1 as [|e1 rs1].
        -- simplify_eq/=. destruct Hn. apply Sorted_cons2. split; [done|].
           apply Sorted_1.
        -- simplify_eq/=. exists rs1, rs2. apply Sorted_cons2 in Hs as [_ Hs].
           split_and!; [done|done|]. intros Hs'. apply Hn.
           apply Sorted_cons2. by split.
    + split.
      * intros [= ->]. exists [], rs. csimpl. split_and!; [done|apply Sorted_1|].
        intros [Hle _]%Sorted_cons2. unfold str_le in Hle. congruence.
      * intros (rs1 & rs2 & Heq & Hs & Hn). destruct rs1 as [|e1 rs1].
        -- by simplify_eq/=.
        -- simplify_eq/=. apply Sorted_cons2 in Hs as [Hle _].
           unfold str_le in Hle. congruence.
Qed.

Lemma first_offender_None rs :
  first_offender rs = None ↔ Sorted str_le (a_time <$> rs).
Proof.
  destruct rs as [|e rs]; csimpl; [by split; [constructor|]|].
  apply first_descent_None.
Qed.

Lemma first_offender_Some rs e :
  first_offender rs = Some e ↔
  ∃ rs1 rs2, rs = rs1 ++ e :: rs2 ∧
             Sorted str_le (a_time <$> rs1) ∧
             ¬ Sorted str_le (a_time <$> rs1 ++ [e]).
Proof.
  destruct rs as [|e0 rs]; csimpl.
  - split; [done|]. intros (rs1 & rs2 & Heq & _). by destruct rs1.
  - rewrite first_descent_Some. split.
    + intros (rs1 & rs2 & -> & Hs & Hn). by exists (e0 :: rs1), rs2.
    + intros (rs1 & rs2 & Heq & Hs & Hn). destruct rs1 as [|e1 rs1].
      * destruct Hn. csimpl. apply Sorted_1.
      * simplify_eq/=. by exists rs1, rs2.
Qed.

Lemma default_last_cons {A} (t a : A) (l : list A) :
  default t (last (a :: l)) = default a (last l).
Proof.
  revert t a. induction l as [|b l IH]; intros t a; [done|].
  change (last (a :: b :: l)) with (last (b :: l)).
  by rewrite (IH t b), (IH a b).
Qed.

Lemma last_cons_default {A} (a : A) (l : list A) :
  last (a :: l) = Some (default a (last l)).
Proof.
  revert a. induction l as [|b l IH]; intros a; [done|].
  change (last (a :: b :: l)) with (last (b :: l)). by rewrite !IH.
Qed.

Lemma atime_step_blacklist_mono st e :
  bus_line_blacklist st ⊆ bus_line_blacklist (atime_step st e).
Proof.
  unfold atime_step. destruct (decide _); [done|].
  destruct (_ !! _) as [t|]; [|done].
  destruct (String.leb _ _); simpl; [done|set_solver].
Qed.

Lemma atime_skip_line l st rs :
  l ∈ bus_line_blacklist st → Forall (λ e, bus_id e = l) rs →
  foldl atime_step st rs = st.
Proof.
  intros Hl Hrs. induction Hrs as [|e rs <- _ IH]; simpl; [done|].
  by rewrite atime_step_skipped.
Qed.

(** The loop on records of one line [l], from a state where [l] has the
    tracked time [t] and is not blacklisted. *)
Lemma atime_line_from l st t rs :
  Forall (λ e, bus_id e = l) rs →
  l ∉ bus_line_blacklist st →
  bus_last_stop_arrival_time st !! l = Some t →
  match first_descent t rs with
  | None =>
      (l ∉ bus_line_blacklist (foldl atime_step st rs)) ∧
      bus_last_stop_arrival_time (foldl atime_step st rs) !! l =
        Some (default t (last (a_time <$> rs))) ∧
      atime_printed (foldl atime_step st rs) = atime_printed st
  | Some e =>
      l ∈ bus_line_blacklist (foldl atime_step st rs) ∧
      atime_printed (foldl atime_step st rs) =
        atime_printed st ++ [WrongTime l (stop_name e)]
  end.
Proof.
  intros Hrs. revert st t.
  induction Hrs as [|e rs <- Hrs IH]; intros st t Hb Ht; simpl; [done|].
  destruct (String.leb t (a_time e)) eqn:Hle.
  - rewrite (atime_step_later st e t) by done.
    assert (bus_last_stop_arrival_time (set_time st e) !! bus_id e =
            Some (a_time e)) as Hset by (simpl; apply lookup_insert_eq).
    specialize (IH (set_time st e) (a_time e) Hb Hset).
    destruct (first_descent (a_time e) rs); [done|].
    destruct IH as (H1 & H2 & H3). split; [done|]. split; [|by rewrite H3].
    rewrite H2. f_equal. csimpl. by rewrite default_last_cons.
  - assert (atime_step st e = blacklist_line st e) as ->.
    { apply (atime_step_earlier st e t); [done..|].
      by rewrite ltb_not_leb, Hle. }
    rewrite (atime_skip_line (bus_id e)); [|simpl; set_solver|done].
    simpl. split; [set_solver|done].
Qed.

(** The loop on the records of one line, from the start. *)
Lemma atime_line l rs :
  Forall (λ e, bus_id e = l) rs →
  match first_offender rs with
  | None =>
      (l ∉ bus_line_blacklist (atime_loop rs)) ∧
      bus_last_stop_arrival_time (atime_loop rs) !! l = last (a_time <$> rs) ∧
      atime_printed (atime_loop rs) = [ArrivalTimeTest]
  | Some e =>
      l ∈ bus_line_blacklist (atime_loop rs) ∧
      atime_printed (atime_loop rs) = [ArrivalTimeTest; WrongTime l (stop_name e)]
  end.
Proof.
  intros Hrs. destruct Hrs as [|e rs <- Hrs]; [by split; [set_solver|]|].
  unfold atime_loop. simpl.
  change (atime_step atime_init e) with (set_time atime_init e).
  assert (bus_id e ∉ bus_line_blacklist (set_time atime_init e)) as Hb
    by (simpl; set_solver).
  assert (bus_last_stop_arrival_time (set_time atime_init e) !! bus_id e =
          Some (a_time e)) as Hset by (simpl; apply lookup_insert_eq).
  pose proof (atime_line_from (bus_id e) (set_time atime_init e) (a_time e) rs
                Hrs Hb Hset) as H.
  destruct (first_descent (a_time e) rs); [done|].
  destruct H as (H1 & H2 & H3). split; [done|]. split; [|by rewrite H3].
  rewrite H2. csimpl. by rewrite last_cons_default.
Qed.

Lemma Forall_line l db : Forall (λ e, bus_id e = l) (line l db).
Proof. apply Forall_forall. by intros e [_ ?]%elem_of_line. Qed.

(** What the check holds about a line of any dataset. *)
Lemma atime_line_view l db :
  line_view l (atime_loop db) =
  match first_offender (line l db) with
  | None => (last (a_time <$> line l db), false, [])
  | Some e => (bus_last_stop_arrival_time (atime_loop (line l db)) !! l, true,
               [WrongTime l (stop_name e)])
  end.
Proof.
  unfold atime_loop at 1. rewrite (line_view_foldl l db atime_init atime_init) by done.
  fold (atime_loop (line l db)).
  pose proof (atime_line l (line l db) (Forall_line l db)) as H.
  unfold line_view. destruct (first_offender (line l db)) as [e|].
  - destruct H as [H1 H2]. rewrite H2, bool_decide_eq_true_2 by done.
    f_equal. rewrite filter_cons, filter_cons, filter_nil. simpl.
    by rewrite decide_True.
  - destruct H as (H1 & H2 & H3). rewrite H2, H3, bool_decide_eq_false_2 by done.
    done.
Qed.

Lemma blacklist_iff_offender l db :
  l ∈ bus_line_blacklist (atime_loop db) ↔ is_Some (first_offender (line l db)).
Proof.
  pose proof (atime_line_view l db) as H. unfold line_view in H.
  destruct (first_offender (line l db)) as [e|].
  - injection H as _ Hb _. apply bool_decide_eq_true in Hb.
    split; [by eexists|done].
  - injection H as _ Hb _. apply bool_decide_eq_false in Hb.
    split; [done|by intros [? ?]].
Qed.

(** X17: a line is on the blacklist at the end of [check_atime] exactly
    when the times of its records, in the order of the dataset, are not in
    non-decreasing order of the strings; "OK" is printed exactly when the
    times of every line are in order. *)
Theorem check_atime_sorted db :
  (∀ l, l ∈ bus_line_blacklist (atime_loop db) ↔
        ¬ Sorted str_le (a_time <$> line l db)) ∧
  (OK ∈ check_atime db ↔ ∀ l, Sorted str_le (a_time <$> line l db)).
Proof.
  assert (∀ l, l ∈ bus_line_blacklist (atime_loop db) ↔
               ¬ Sorted str_le (a_time <$> line l db)) as Hb.
  { intros l. rewrite blacklist_iff_offender, <-first_offender_None.
    destruct (first_offender (line l db)) as [e|].
    - split; [done | intros _; by eexists].
    - split; [by intros [? ?] | intros H; by destruct H]. }
  split; [done|]. rewrite check_atime_OK. split.
  - intros He l. destruct (decide (Sorted str_le (a_time <$> line l db))) as [|Hn];
      [done|]. apply Hb in Hn. rewrite He in Hn. by apply elem_of_empty in Hn.
  - intros Hall. apply set_eq. intros l. split; [|by intros ?%elem_of_empty].
    intros Hl%Hb. by destruct Hl.
Qed.

(** X18: [check_atime] prints a diagnostic for a line and a stop exactly
    when the stop is that of the first record of the line at which the
    times of the line stop being in order: the times of the records of the
    line before it are in order, and with its time they are not. *)
Theorem check_atime_diagnostic db l s :
  WrongTime l s ∈ check_atime db ↔
  ∃ rs1 e rs2,
    line l db = rs1 ++ e :: rs2 ∧
    Sorted str_le (a_time <$> rs1) ∧
    ¬ Sorted str_le (a_time <$> rs1 ++ [e]) ∧
    s = stop_name e.
Proof.
  assert (WrongTime l s ∈ check_atime db ↔
          WrongTime l s ∈ filter (about l) (atime_printed (atime_loop db))) as ->.
  { unfold check_atime. rewrite elem_of_app, list_elem_of_filter. simpl. split.
    - intros [?|Hin]; [done|]. destruct (decide _); [|by apply elem_of_nil in Hin].
      by apply list_elem_of_singleton in Hin.
    - intros [_ ?]. by left. }
  pose proof (atime_line_view l db) as Hv. unfold line_view in Hv.
  destruct (first_offender (line l db)) as [e|] eqn:Ho.
  - injection Hv as _ _ ->. rewrite list_elem_of_singleton.
    apply first_offender_Some in Ho as (rs1 & rs2 & Hl & Hs & Hn). split.
    + intros [= ->]. by exists rs1, e, rs2.
    + intros (rs1' & e' & rs2' & Hl' & Hs' & Hn' & ->).
      assert (first_offender (line l db) = Some e') as He'.
      { apply first_offender_Some. by exists rs1', rs2'. }
      assert (first_offender (line l db) = Some e) as He.
      { apply first_offender_Some. by exists rs1, rs2. }
      congruence.
  - injection Hv as _ _ ->. split; [by intros ?%elem_of_nil|].
    intros (rs1 & e & rs2 & Hl & Hs & Hn & _).
    assert (first_offender (line l db) = Some e) as He.
    { apply first_offender_Some. by exists rs1, rs2. }
    congruence.
Qed.

(** X19: at the end of [check_atime], the tracked time of a line that is
    not blacklisted is the time of the last record of the line; a line
    without records has none. *)
Theorem check_atime_tracked db l :
  l ∉ bus_line_blacklist (atime_loop db) →
  bus_last_stop_arrival_time (atime_loop db) !! l = last (a_time <$> line l db).
Proof.
  intros Hb. pose proof (atime_line_view l db) as Hv. unfold line_view in Hv.
  destruct (first_offender (line l db)) as [e|] eqn:Ho.
  - destruct Hb. apply blacklist_iff_offender. rewrite Ho. by eexists.
  - by injection Hv as -> _ _.
Qed.

Lemma check_atime_tracked_witness :
  bus_last_stop_arrival_time (atime_loop chronology_db) !! 2%Z =
  last (a_time <$> line 2 chronology_db).
Proof.
  apply (check_atime_tracked chronology_db 2%Z).
  vm_compute. intros H. discriminate H.
Defined.

Lemma atime_step_shape st e :
  (∃ diags,
     atime_printed st = ArrivalTimeTest :: diags ∧
     length diags = size (bus_line_blacklist st) ∧
     Forall (λ m, ∃ l s, m = WrongTime l s ∧ l ∈ bus_line_blacklist st) diags) →
  ∃ diags,
    atime_printed (atime_step st e) = ArrivalTimeTest :: diags ∧
    length diags = size (bus_line_blacklist (atime_step st e)) ∧
    Forall (λ m, ∃ l s, m = WrongTime l s ∧
                        l ∈ bus_line_blacklist (atime_step st e)) diags.
Proof.
  intros (diags & Hp & Hlen & Hall). unfold atime_step.
  destruct (decide (bus_id e ∈ bus_line_blacklist st)) as [Hb|Hb]; [by exists diags|].
  assert (∃ diags0,
    atime_printed (set_time st e) = ArrivalTimeTest :: diags0 ∧
    length diags0 = size (bus_line_blacklist (set_time st e)) ∧
    Forall (λ m, ∃ l s, m = WrongTime l s ∧
                        l ∈ bus_line_blacklist (set_time st e)) diags0) as Hset
    by (by exists diags).
  destruct (bus_last_stop_arrival_time st !! bus_id e) as [t|]; [|done].
  destruct (String.leb t (a_time e)); [done|].
  exists (diags ++ [WrongTime (bus_id e) (stop_name e)]). simpl. split_and!.
  - by rewrite Hp.
  - rewrite length_app, size_union, size_singleton by set_solver. simpl. lia.
  - apply Forall_app. split.
    + eapply Forall_impl; [exact Hall|]. intros m (l & s & -> & Hl).
      exists l, s. split; [done|]. set_solver.
    + apply Forall_singleton. eexists _, _. split; [done|]. set_solver.
Qed.

(** X20: [check_atime] prints its header, then one diagnostic for each
    blacklisted line and no other, then "OK" if there is none: the output
    never has both a diagnostic and "OK". *)
Theorem check_atime_shape db :
  ∃ diags,
    check_atime db =
      ArrivalTimeTest :: diags ++
      (if decide (bus_line_blacklist (atime_loop db) = ∅) then [OK] else []) ∧
    length diags = size (bus_line_blacklist (atime_loop db)) ∧
    Forall (λ m, ∃ l s, m = WrongTime l s ∧
                        l ∈ bus_line_blacklist (atime_loop db)) diags.
Proof.
  assert (∃ diags,
    atime_printed (atime_loop db) = ArrivalTimeTest :: diags ∧
    length diags = size (bus_line_blacklist (atime_loop db)) ∧
    Forall (λ m, ∃ l s, m = WrongTime l s ∧
                        l ∈ bus_line_blacklist (atime_loop db)) diags)
    as (diags & Hp & Hlen & Hall).
  { induction db as [|e db IH] using rev_ind.
    - exists []. by split_and!.
    - rewrite atime_loop_snoc. by apply atime_step_shape. }
  exists diags. split_and!; [|done|done]. unfold check_atime. by rewrite Hp.
Qed.

(** ** The order of the strings and the order of the times *)

(** [check_atime] on a line of two records. *)
Lemma check_atime_two l n1 ty1 s n2 ty2 t :
  check_atime [stop l n1 ty1 s; stop l n2 ty2 t] =
  if String.leb s t then [ArrivalTimeTest; OK]
  else [ArrivalTimeTest; WrongTime l n2].
Proof.
  pose proof (atime_line l [stop l n1 ty1 s; stop l n2 ty2 t]) as H.
  assert (Forall (λ e, bus_id e = l) [stop l n1 ty1 s; stop l n2 ty2 t]) as Hl
    by (by repeat constructor).
  specialize (H Hl). simpl in H. unfold check_atime.
  destruct (String.leb s t).
  - destruct H as (Hb & _ & ->).
    destruct (atime_loop_dom [stop l n1 ty1 s; stop l n2 ty2 t]) as [Hd Hsub].
    rewrite decide_True; [done|]. rewrite Hd in Hsub. simpl in Hsub. set_solver.
  - destruct H as [Hb ->]. rewrite decide_False; [done|]. set_solver.
Qed.

(** X21: for two strings of two digits 0-9, a colon and two digits 0-9,
    denoting the hours and minutes [h:m] and [h':m'], the comparison [<=]
    of [check_atime] holds exactly when [(h, m)] is at or before [(h', m')]
    in the order of the pairs, so a line of two records with these times is
    passed exactly then; when both minutes are below 60, this is the order
    of the times of day. *)
Theorem a_time_order a1 a2 a3 a4 b1 b2 b3 b4 :
  Forall (λ c, (48 ≤ N_of_ascii c ≤ 57)%N) [a1; a2; a3; a4; b1; b2; b3; b4] →
  (String.leb
     (String a1 (String a2 (String ":" (String a3 (String a4 "")))))
     (String b1 (String b2 (String ":" (String b3 (String b4 ""))))) = true ↔
   (10 * digit_value a1 + digit_value a2 < 10 * digit_value b1 + digit_value b2 ∨
    (10 * digit_value a1 + digit_value a2 = 10 * digit_value b1 + digit_value b2 ∧
     10 * digit_value a3 + digit_value a4 ≤ 10 * digit_value b3 + digit_value b4))%N) ∧
  (∀ l n1 ty1 n2 ty2,
     check_atime
       [stop l n1 ty1 (String a1 (String a2 (String ":" (String a3 (String a4 "")))));
        stop l n2 ty2 (String b1 (String b2 (String ":" (String b3 (String b4 "")))))] =
       [ArrivalTimeTest; OK] ↔
     (10 * digit_value a1 + digit_value a2 < 10 * digit_value b1 + digit_value b2 ∨
      (10 * digit_value a1 + digit_value a2 = 10 * digit_value b1 + digit_value b2 ∧
       10 * digit_value a3 + digit_value a4 ≤ 10 * digit_value b3 + digit_value b4))%N) ∧
  ((10 * digit_value a3 + digit_value a4 < 60)%N →
   (10 * digit_value b3 + digit_value b4 < 60)%N →
   (String.leb
      (String a1 (String a2 (String ":" (String a3 (String a4 "")))))
      (String b1 (String b2 (String ":" (String b3 (String b4 ""))))) = true ↔
    (60 * (10 * digit_value a1 + digit_value a2) + (10 * digit_value a3 + digit_value a4) ≤
     60 * (10 * digit_value b1 + digit_value b2) + (10 * digit_value b3 + digit_value b4))%N)).
Proof.
  intros Ha.
  apply Forall_cons in Ha as [A1 Ha]. apply Forall_cons in Ha as [A2 Ha].
  apply Forall_cons in Ha as [A3 Ha]. apply Forall_cons in Ha as [A4 Ha].
  apply Forall_cons in Ha as [B1 Ha]. apply Forall_cons in Ha as [B2 Ha].
  apply Forall_cons in Ha as [B3 Ha]. apply Forall_cons in Ha as [B4 _].
  assert (String.leb
            (String a1 (String a2 (String ":" (String a3 (String a4 "")))))
            (String b1 (String b2 (String ":" (String b3 (String b4 ""))))) = true ↔
          (10 * digit_value a1 + digit_value a2 < 10 * digit_value b1 + digit_value b2 ∨
           (10 * digit_value a1 + digit_value a2 = 10 * digit_value b1 + digit_value b2 ∧
            10 * digit_value a3 + digit_value a4 ≤ 10 * digit_value b3 + digit_value b4))%N)
    as Hleb.
  { unfold String.leb, digit_value. simpl. unfold Ascii.compare.
    change (N_of_ascii ":" ?= N_of_ascii ":")%N with Eq.
    destruct (N.compare_spec (N_of_ascii a1) (N_of_ascii b1));
      destruct (N.compare_spec (N_of_ascii a2) (N_of_ascii b2));
      destruct (N.compare_spec (N_of_ascii a3) (N_of_ascii b3));
      destruct (N.compare_spec (N_of_ascii a4) (N_of_ascii b4));
      (split; [intros Heq; first [discriminate Heq | lia]
              | intros Hor; first [reflexivity | exfalso; lia]]). }
  split; [exact Hleb|]. split.
  - intros l n1 ty1 n2 ty2. rewrite check_atime_two, <-Hleb.
    by destruct (String.leb _ _).
  - intros Hm Hm'. rewrite Hleb. lia.
Qed.

Lemma a_time_order_witness :
  (String.leb "08:59" "09:00" = true ↔
   (10 * digit_value "0" + digit_value "8" < 10 * digit_value "0" + digit_value "9" ∨
    (10 * digit_value "0" + digit_value "8" = 10 * digit_value "0" + digit_value "9" ∧
     10 * digit_value "5" + digit_value "9" ≤ 10 * digit_value "0" + digit_value "0"))%N) ∧
  (∀ l n1 ty1 n2 ty2,
     check_atime [stop l n1 ty1 "08:59"; stop l n2 ty2 "09:00"] =
       [ArrivalTimeTest; OK] ↔
     (10 * digit_value "0" + digit_value "8" < 10 * digit_value "0" + digit_value "9" ∨
      (10 * digit_value "0" + digit_value "8" = 10 * digit_value "0" + digit_value "9" ∧
       10 * digit_value "5" + digit_value "9" ≤ 10 * digit_value "0" + digit_value "0"))%N) ∧
  ((10 * digit_value "5" + digit_value "9" < 60)%N →
   (10 * digit_value "0" + digit_value "0" < 60)%N →
   (String.leb "08:59" "09:00" = true ↔
    (60 * (10 * digit_value "0" + digit_value "8") + (10 * digit_value "5" + digit_value "9") ≤
     60 * (10 * digit_value "0" + digit_value "9") + (10 * digit_value "0" + digit_value "0"))%N)).
Proof.
  apply (a_time_order "0"%char "8"%char "5"%char "9"%char
                      "0"%char "9"%char "0"%char "0"%char).
  repeat constructor; by vm_compute.
Defined.

(** The minute 60: "08:60" and "09:00" are both accepted and denote the
    same time of day, but as strings the second is after the first, so a
    line that goes from "09:00" to "08:60" is reported. *)
Example minute_60_goes_back :
  field_ok "a_time" (VStr "08:60") = true ∧
  check_atime [stop 1 "A" "S" "08:60"; stop 1 "B" "F" "09:00"] =
    [ArrivalTimeTest; OK] ∧
  check_atime [stop 1 "A" "S" "09:00"; stop 1 "B" "F" "08:60"] =
    [ArrivalTimeTest; WrongTime 1 "B"].
Proof. by vm_compute. Qed.

(** ** [bus_lines_and_stops]: the line that the exit names *)

Lemma foldl_classify_snoc bus_lines db e :
  classify (foldl classify bus_lines db) e = foldl classify bus_lines (db ++ [e]).
Proof. by rewrite foldl_app. Qed.

Lemma over_limit_records seen e :
  over_limit (classify (foldl classify [] seen) e) e =
  (1 <? starts (bus_id e) (seen ++ [e]))%nat ||
  (1 <? finals (bus_id e) (seen ++ [e]))%nat.
Proof.
  rewrite foldl_classify_snoc. unfold over_limit.
  rewrite get_foldl_classify_nil, decide_True.
  - by destruct (counts_add_stops_new (bus_id e) (seen ++ [e])) as [-> ->].
  - apply elem_of_bus_ids. exists e. split; [|done].
    apply elem_of_app. right. apply elem_of_cons. by left.
Qed.

(** The loop classifies the records of [scanned_from], and no other. *)
Lemma scan_scanned_from seen db :
  scan (foldl classify [] seen) db =
  foldl classify (foldl classify [] seen) (scanned_from seen db).
Proof.
  revert seen. induction db as [|e db IH]; intros seen; simpl; [done|].
  rewrite over_limit_records.
  destruct ((1 <? starts _ _)%nat || (1 <? finals _ _)%nat); [done|].
  simpl. rewrite !foldl_classify_snoc. apply IH.
Qed.

Lemma scanned_from_no_break seen db :
  broke (foldl classify [] seen) db = false → scanned_from seen db = db.
Proof.
  revert seen. induction db as [|e db IH]; intros seen; simpl; [done|].
  rewrite over_limit_records.
  destruct ((1 <? starts _ _)%nat || (1 <? finals _ _)%nat); [done|].
  rewrite foldl_classify_snoc. intros Hb. f_equal. by apply IH.
Qed.

Lemma scanned_from_prefix seen db : ∃ post, db = scanned_from seen db ++ post.
Proof.
  revert seen. induction db as [|e db IH]; intros seen; simpl; [by exists []|].
  destruct ((1 <? starts _ _)%nat || (1 <? finals _ _)%nat); [by exists db|].
  destruct (IH (seen ++ [e])) as [post Hpost]. exists post. simpl. by f_equal.
Qed.

Lemma scan_scanned db : scan [] db = foldl classify [] (scanned db).
Proof. apply (scan_scanned_from [] db). Qed.

Lemma find_keys {V} (f : Z * V → bool) (g : Z → bool) (d : list (Z * V)) :
  (∀ k v, (k, v) ∈ d → f (k, v) = g k) →
  fst <$> List.find f d = List.find g (keys d).
Proof.
  unfold keys. induction d as [|[k v] d IH]; intros Hfg; csimpl; [done|].
  rewrite (Hfg k v) by (apply elem_of_cons; by left).
  destruct (g k); [done|]. apply IH. intros k' v' Hin.
  apply Hfg, elem_of_cons. by right.
Qed.

(** The assertion loop on the dict of the records [rs] finds the line that
    [first_ill_formed] tells from the records. *)
Lemma first_violation_records rs :
  fst <$> first_violation (foldl classify [] rs) = first_ill_formed rs.
Proof.
  unfold first_violation, first_ill_formed.
  rewrite (find_keys _ (λ l, negb (one_S_one_F rs l))).
  - rewrite keys_foldl_classify_order. simpl. f_equal.
    apply filter_all. intros l. apply not_elem_of_nil.
  - intros k p Hin. simpl. f_equal.
    assert (NoDup (keys (foldl classify [] rs))) as Hnd.
    { rewrite keys_foldl_classify_order. simpl.
      rewrite filter_all by (intros l; apply not_elem_of_nil).
      clear. induction (bus_ids rs) as [|x l IH]; simpl; [constructor|].
      apply NoDup_cons. split.
      - rewrite list_elem_of_filter. by intros [? _].
      - by apply NoDup_filter. }
    apply elem_of_get in Hin; [|done].
    rewrite get_foldl_classify_nil in Hin.
    destruct (decide (k ∈ bus_ids rs)); [|done]. injection Hin as <-.
    unfold one_start_one_final, one_S_one_F.
    by destruct (counts_add_stops_new k rs) as [-> ->].
Qed.

(** The outcome of [bus_lines_and_stops], told from the records. *)
Lemma bus_lines_and_stops_records db :
  bus_lines_and_stops db =
  match first_ill_formed (scanned db) with
  | Some n => Exit [NoStartOrEndStop n] 1
  | None => Return (scan [] db)
  end.
Proof.
  unfold bus_lines_and_stops. rewrite <-first_violation_records, <-scan_scanned.
  by destruct (first_violation (scan [] db)) as [[n q]|].
Qed.

(** C2, at a dataset where the line named is not a violating line: line 2
    has two "S" records, line 1 has exactly one "S" record and one "F"
    record, and the message names line 1, whose "F" record comes after the
    record that stops the scan. *)
Lemma exit_names_well_formed_line :
  bus_lines_and_stops
    [stop 1 "A" "S" "08:00"; stop 2 "B" "S" "08:05"; stop 2 "C" "S" "08:10";
     stop 1 "D" "F" "08:20"; stop 2 "E" "F" "08:30"] =
    Exit [NoStartOrEndStop 1] 1 ∧
  one_S_one_F
    [stop 1 "A" "S" "08:00"; stop 2 "B" "S" "08:05"; stop 2 "C" "S" "08:10";
     stop 1 "D" "F" "08:20"; stop 2 "E" "F" "08:30"] 1 = true ∧
  one_S_one_F
    [stop 1 "A" "S" "08:00"; stop 2 "B" "S" "08:05"; stop 2 "C" "S" "08:10";
     stop 1 "D" "F" "08:20"; stop 2 "E" "F" "08:30"] 2 = false.
Proof. by vm_compute. Qed.

(** C2, amended: when some line of the dataset does not have exactly one
    "S" record and one "F" record, [bus_lines_and_stops] prints the message
    and exits with status 1; the line named is the first line, in the order
    in which the scanned records first mention the lines, that does not
    have exactly one "S" and one "F" record among the scanned records: the
    records up to the one that gives a line its second "S" or second "F",
    all the records when there is none.  The function returns exactly when
    every line of the dataset has one "S" and one "F" record, and the dict
    returned maps every line to the topology of its records. *)
Theorem bus_lines_and_stops_names_first_scanned db :
  ((∃ l, l ∈ bus_ids db ∧ ¬ (starts l db = 1 ∧ finals l db = 1)) →
   ∃ n, first_ill_formed (scanned db) = Some n ∧
        bus_lines_and_stops db = Exit [NoStartOrEndStop n] 1) ∧
  (∀ bus_lines, bus_lines_and_stops db = Return bus_lines →
     first_ill_formed (scanned db) = None ∧ scanned db = db ∧
     ∀ l, l ∈ bus_ids db →
       starts l db = 1 ∧ finals l db = 1 ∧
       get l bus_lines = Some (add_stops new_line (line l db))) ∧
  ((∀ l, l ∈ bus_ids db → starts l db = 1 ∧ finals l db = 1) →
   ∃ bus_lines, bus_lines_and_stops db = Return bus_lines) ∧
  (∃ post, db = scanned db ++ post).
Proof.
  destruct (bus_lines_and_stops_cases db) as [Hiff Hexit].
  pose proof (bus_lines_and_stops_records db) as Hrec.
  split_and!; [| | |apply scanned_from_prefix].
  - intros (l & Hl & Hn).
    destruct (first_ill_formed (scanned db)) as [n|]; [by exists n|].
    destruct Hn. apply Hiff; [by eexists|done].
  - intros bus_lines Hret. rewrite Hret in Hrec.
    destruct (first_ill_formed (scanned db)) as [n|] eqn:Hf; [done|].
    split; [done|].
    destruct (bus_lines_and_stops_Return db bus_lines Hret) as (-> & Hb & Hall).
    split.
    + by apply (scanned_from_no_break []).
    + intros l Hl.
      assert (starts l db = 1 ∧ finals l db = 1) as [Hs Hf']
        by (apply Hiff; [by eexists|done]).
      split_and!; [done|done|].
      by rewrite get_foldl_classify_nil, decide_True.
  - intros Hall. by apply Hiff.
Qed.

Lemma bus_lines_and_stops_names_first_scanned_witness :
  ∃ n, first_ill_formed (scanned [stop 1 "A" "S" "08:00"; stop 1 "B" "S" "08:10"]) =
         Some n ∧
       bus_lines_and_stops [stop 1 "A" "S" "08:00"; stop 1 "B" "S" "08:10"] =
         Exit [NoStartOrEndStop n] 1.
Proof.
  apply (proj1 (bus_lines_and_stops_names_first_scanned
                  [stop 1 "A" "S" "08:00"; stop 1 "B" "S" "08:10"])).
  exists 1%Z. split.
  - apply elem_of_cons. by left.
  - vm_compute. intros [H1 _]. discriminate H1.
Defined.
